(** * The SIG's table of remote ASes: go/sig/base/map.go

    [ASMap] is a [sync.Map] from [addr.IAInt] keys to [*ASEntry] values.
    The file below embeds its accessors, [AddIA], [DelIA], the lookup
    [ASEntry], and the reconciliation pass [ReloadConfig] with its two
    phases [addNewIAs] and [delOldIAs].

    The code is stateful: it mutates the map and calls into the entry's
    own code ([newASEntry], the entry's [ReloadConfig] and [Cleanup])
    and into the logger.  The embedding threads one [State] that holds the
    map's contents, the state of everything outside the map and the trace of
    the effectful calls in program order. *)

From Stdlib Require Import ZArith String List Bool Lia.
From stdpp Require Import base option list gmap strings.

Open Scope string_scope.
Open Scope list_scope.
Open Scope Z_scope.

(** ** Package addr *)

Module addr.

(** [type ISD_AS struct { I int; A int }]: a Go [int] holds the two parts. *)
Record ISD_AS := mkISD_AS { I : Z; A : Z }.

(** [type IAInt uint32]: the single comparable key an [ISD_AS] is packed
    into.  How it is packed is not in map.go; see [Environment]. *)
Definition IAInt := Z.

#[global] Instance ISD_AS_eq_dec : EqDecision ISD_AS.
Proof. solve_decision. Defined.

#[global] Instance ISD_AS_countable : Countable ISD_AS :=
  inj_countable' (λ ia, (I ia, A ia)) (λ p, mkISD_AS p.1 p.2)
                 (λ ia, match ia with mkISD_AS _ _ => eq_refl end).

End addr.

(** ** Package common *)

Module common.

(** One element of the variadic [ctx ...interface{}] of an error. *)
Inductive CtxVal :=
| CtxString (s : string)
| CtxIA (ia : addr.ISD_AS)
| CtxAny (repr : string).

(** [type CError struct { Desc string; Ctx []interface{}; ... }] *)
Record CError := mkCError { Desc : string; Ctx : list CtxVal }.

(** [func NewCError(desc string, ctx ...interface{}) error] *)
Definition NewCError (desc : string) (ctx : list CtxVal) : CError :=
  {| Desc := desc; Ctx := ctx |}.

End common.

(** ** What map.go calls and does not define

    The entry type with its constructor and methods, the configuration type,
    the packing of an [ISD_AS] into an [IAInt] and back, and the order in
    which Go ranges over a map are all outside map.go.  They are the fields of
    one interface; every theorem below holds for each of its instances.

    Two things are fixed by the types.  The entry's code acts on [World]
    only: it does not reach back into the map.  And an [error] is a
    [*common.CError]: that is what [NewCError] builds and what [addNewIAs]
    and [delOldIAs] assert of every error they log. *)

Class Environment := {
  (** state of the sessions, tunnel devices and whatever else the entries own *)
  World : Type;
  (** [base.ASEntry]; a [*ASEntry] is an [option ASEntry], [None] being nil *)
  ASEntry : Type;
  (** [config.ASEntry], the per-AS part of a configuration *)
  cfgASEntry : Type;
  (** [func (ia *ISD_AS) IAInt() IAInt] *)
  ISD_AS_IAInt : addr.ISD_AS → addr.IAInt;
  (** [func (iaI IAInt) IA() *ISD_AS] *)
  IAInt_IA : addr.IAInt → addr.ISD_AS;
  (** [newASEntry(ia)], returning a [*ASEntry] and an [error] *)
  newASEntry :
    addr.ISD_AS → World → (option ASEntry * option common.CError) * World;
  (** [func (ae *ASEntry) ReloadConfig(cfg *config.ASEntry) bool] *)
  ASEntry_ReloadConfig : option ASEntry → cfgASEntry → World → bool * World;
  (** [func (ae *ASEntry) Cleanup() error] *)
  ASEntry_Cleanup : option ASEntry → World → option common.CError * World;
  (** the order of [for k, v := range m] over a Go map: every pair once *)
  range_map :
    gmap addr.ISD_AS cfgASEntry → list (addr.ISD_AS * cfgASEntry);
  range_map_perm : ∀ m, range_map m ≡ₚ map_to_list m;
  (** the keys [sync.Map]'s [Range] walks through: every key once *)
  range_sync : gmap addr.IAInt (option ASEntry) → list addr.IAInt;
  range_sync_perm : ∀ m, range_sync m ≡ₚ (map_to_list m).*1;
}.

(** ** Package config *)

Module config.

(** [type Cfg struct { ASes map[addr.ISD_AS]*ASEntry }] *)
Record Cfg `{Environment} := mkCfg { ASes : gmap addr.ISD_AS cfgASEntry }.

End config.

(** ** Package base: map.go *)

Module base.

Section map_go.
Context `{Env : Environment}.

(** The contents of an [ASMap]. *)
Abbreviation ASMap := (gmap addr.IAInt (option ASEntry)).

(** The effectful calls of map.go, as they appear in the trace. *)
Inductive Event :=
| EvStore (key : addr.IAInt) (value : option ASEntry)
| EvDelete (key : addr.IAInt)
| EvNewASEntry (ia : addr.ISD_AS)
| EvReloadConfig (ae : option ASEntry) (c : cfgASEntry)
| EvCleanup (ae : option ASEntry)
| EvLogInfo (msg : string) (ia : addr.ISD_AS)
| EvLogError (desc : string) (ctx : list common.CtxVal).

Record State := mkState {
  am : ASMap;
  world : World;
  trace : list Event;
}.

(** Computations of map.go: a state monad over [State]. *)
Definition M (X : Type) : Type := State → X * State.

Definition ret {X} (x : X) : M X := λ st, (x, st).

Definition bind {X Y} (m : M X) (k : X → M Y) : M Y :=
  λ st, let '(x, st') := m st in k x st'.

Notation "'let*' x ':=' m 'in' k" := (bind m (λ x, k))
  (at level 10, x name, m at level 100, k at level 200, only parsing).
Notation "'let*' ' pat ':=' m 'in' k" := (bind m (λ x, match x with pat => k end))
  (at level 10, pat pattern, m at level 100, k at level 200, only parsing).
Notation "m >> k" := (bind m (λ _, k))
  (at level 100, k at level 200, right associativity, only parsing).

(** The three ways map.go touches the state. *)
Definition read_am {X} (f : ASMap → X) : M X := λ st, (f (am st), st).

Definition write_am (ev : Event) (f : ASMap → ASMap) : M unit :=
  λ st, (tt, {| am := f (am st); world := world st;
                trace := trace st ++ [ev] |}).

Definition call {X} (ev : Event) (f : World → X * World) : M X :=
  λ st, let '(x, w) := f (world st) in
        (x, {| am := am st; world := w; trace := trace st ++ [ev] |}).

(** [log.Info(msg, "ia", ia)] and [log.Error(desc, ctx...)] *)
Definition log_Info (msg : string) (ia : addr.ISD_AS) : M unit :=
  call (EvLogInfo msg ia) (λ w, (tt, w)).

Definition log_Error (desc : string) (ctx : list common.CtxVal) : M unit :=
  call (EvLogError desc ctx) (λ w, (tt, w)).

(** *** sync.Map

    A value of [sync.Map] is an [interface{}]; the nil interface is [None],
    a stored [*ASEntry] (nil or not) is [Some]. *)

Definition sync_Load (key : addr.IAInt)
  : M (option (option ASEntry) * bool) :=
  read_am (λ m, match m !! key with
                | Some v => (Some v, true)
                | None => (None, false)
                end).

Definition sync_LoadOrStore (key : addr.IAInt) (value : option ASEntry)
  : M (option (option ASEntry) * bool) :=
  let* cur := read_am (λ m, m !! key) in
  match cur with
  | Some v => ret (Some v, true)
  | None => write_am (EvStore key value) (insert key value) >>
            ret (Some value, false)
  end.

(** [Range] walks through the keys it found when it started; a key deleted
    in the meantime is passed over, and [f] returning false ends the walk.
    The variables the Go closure captures and assigns are the accumulator. *)
Fixpoint sync_Range_keys {Acc}
    (f : addr.IAInt → option ASEntry → Acc → M (bool * Acc))
    (keys : list addr.IAInt) (acc : Acc) : M Acc :=
  match keys with
  | [] => ret acc
  | key :: rest =>
      let* cur := read_am (λ m, m !! key) in
      match cur with
      | None => sync_Range_keys f rest acc
      | Some value =>
          let* '(continue, acc') := f key value acc in
          if continue : bool then sync_Range_keys f rest acc' else ret acc'
      end
  end.

Definition sync_Range {Acc}
    (f : addr.IAInt → option ASEntry → Acc → M (bool * Acc)) (acc : Acc)
  : M Acc :=
  let* keys := read_am range_sync in
  sync_Range_keys f keys acc.

(** *** ASMap *)

(** [newASMap] returns a pointer to a zero [ASMap]: a map with no entry.
    [Map], the table of the package, starts as one. *)
Definition newASMap : ASMap := ∅.

Definition Map : ASMap := newASMap.

Definition Delete (key : addr.IAInt) : M unit :=
  write_am (EvDelete key) (delete key).

Definition Load (key : addr.IAInt) : M (option ASEntry * bool) :=
  let* '(value, ok) := sync_Load key in
  match value with
  | None => ret (None, ok)
  | Some v => ret (v, ok)
  end.

Definition LoadOrStore (key : addr.IAInt) (value : option ASEntry)
  : M (option ASEntry * bool) :=
  let* '(actual, ok) := sync_LoadOrStore key value in
  match actual with
  | None => ret (None, ok)
  | Some v => ret (v, ok)
  end.

Definition Store (key : addr.IAInt) (value : option ASEntry) : M unit :=
  write_am (EvStore key value) (insert key value).

Definition Range {Acc}
    (f : addr.IAInt → option ASEntry → Acc → M (bool * Acc)) (acc : Acc)
  : M Acc :=
  sync_Range f acc.

(** [AddIA] idempotently adds an entry for a remote IA. *)
Definition AddIA (ia : addr.ISD_AS)
  : M (option ASEntry * option common.CError) :=
  if (addr.I ia =? 0) || (addr.A ia =? 0) then
    ret (None, Some (common.NewCError "AddIA: ISD and AS must not be 0"
                       [common.CtxString "ia"; common.CtxIA ia]))
  else
    let key := ISD_AS_IAInt ia in
    let* '(ae, ok) := Load key in
    if ok : bool then ret (ae, None)
    else
      let* '(ae, err) := call (EvNewASEntry ia) (newASEntry ia) in
      match err with
      | Some e => ret (None, Some e)
      | None => Store key ae >> ret (ae, None)
      end.

(** [DelIA] removes an entry for a remote IA. *)
Definition DelIA (ia : addr.ISD_AS) : M (option common.CError) :=
  let key := ISD_AS_IAInt ia in
  let* '(ae, ok) := Load key in
  if negb ok then
    ret (Some (common.NewCError "DelIA: No entry found"
                 [common.CtxString "ia"; common.CtxIA ia]))
  else
    Delete key >>
    call (EvCleanup ae) (ASEntry_Cleanup ae).

(** [ASEntry] returns the entry for the specified remote IA, or nil if not
    present. *)
Definition ASMap_ASEntry (ia : addr.ISD_AS) : M (option ASEntry) :=
  let* '(as_, ok) := Load (ISD_AS_IAInt ia) in
  if ok : bool then ret as_ else ret None.

(** [addNewIAs] adds the ASes in cfg that are not currently configured.
    The loop body, for the pairs still to come and the current [s]; the
    cast of [err] to a [*common.CError] is the identity here. *)
Fixpoint addNewIAs_loop (todo : list (addr.ISD_AS * cfgASEntry)) (s : bool)
  : M bool :=
  match todo with
  | [] => ret s
  | (iaVal, cfgEntry) :: rest =>
      let ia := iaVal in
      log_Info "ReloadConfig: Adding AS..." ia >>
      let* '(ae, err) := AddIA ia in
      match err with
      | Some cerr =>
          log_Error (common.Desc cerr) (common.Ctx cerr) >>
          addNewIAs_loop rest false
      | None =>
          let* r := call (EvReloadConfig ae cfgEntry)
                         (ASEntry_ReloadConfig ae cfgEntry) in
          let s := r && s in
          log_Info "ReloadConfig: Added AS" ia >>
          addNewIAs_loop rest s
      end
  end.

Definition addNewIAs (cfg : config.Cfg) : M bool :=
  addNewIAs_loop (range_map (config.ASes cfg)) true.

(** The closure [delOldIAs] hands to [Range]; it captures and assigns [s]. *)
Definition delOldIAs_visit (cfg : config.Cfg)
    (iaInt : addr.IAInt) (as_ : option ASEntry) (s : bool)
  : M (bool * bool) :=
  let ia := IAInt_IA iaInt in
  match config.ASes cfg !! ia with
  | None =>
      log_Info "ReloadConfig: Deleting AS..." ia >>
      let* err := DelIA ia in
      match err with
      | Some cerr =>
          log_Error (common.Desc cerr) (common.Ctx cerr) >>
          ret (true, false)
      | None =>
          log_Info "ReloadConfig: Deleted AS" ia >>
          ret (true, s)
      end
  | Some _ => ret (true, s)
  end.

Definition delOldIAs (cfg : config.Cfg) : M bool :=
  Range (delOldIAs_visit cfg) true.

(** Method calls first to prevent skips due to logical short-circuit. *)
Definition ReloadConfig (cfg : config.Cfg) : M bool :=
  let* s := addNewIAs cfg in
  let* d := delOldIAs cfg in
  ret (d && s).

(** *** The kinds of error

    map.go has no enumeration of error kinds: an error is a [CError] and is
    told apart by its description.  The two descriptions map.go itself
    produces are the invalid identifier of [AddIA] and the missing entry of
    [DelIA]; anything else comes from the entry's code. *)
Inductive ErrorKind := InvalidIdentifier | NotFound | OtherError.

Definition kind_of (e : common.CError) : ErrorKind :=
  if decide (common.Desc e = "AddIA: ISD and AS must not be 0")
  then InvalidIdentifier
  else if decide (common.Desc e = "DelIA: No entry found")
  then NotFound
  else OtherError.

(** A wildcard: the test [ia.I == 0 || ia.A == 0] of [AddIA]. *)
Definition wildcard (ia : addr.ISD_AS) : Prop :=
  addr.I ia = 0 ∨ addr.A ia = 0.

(** *** The two phases as the design words them

    The design describes each phase as: do one thing per identifier, record
    the outcome, carry on, and report the conjunction of the outcomes.
    These definitions follow that wording; they call the same [AddIA] and
    [DelIA] and are compared with [addNewIAs] and [delOldIAs] below. *)

Fixpoint for_each {X Y} (f : X → M Y) (l : list X) : M (list Y) :=
  match l with
  | [] => ret []
  | x :: rest =>
      let* y := f x in
      let* ys := for_each f rest in
      ret (y :: ys)
  end.

(** What was recorded for one identifier of cfg: the error of Add if it
    failed, the result of apply-config if it did not. *)
Record AddOutcome := mkAddOutcome {
  ao_ia : addr.ISD_AS;
  ao_add : option common.CError;
  ao_apply : option bool;
}.

Definition add_ok (o : AddOutcome) : bool :=
  match ao_add o with None => true | Some _ => false end.

Definition apply_ok (o : AddOutcome) : bool :=
  match ao_apply o with Some r => r | None => true end.

Definition add_one (p : addr.ISD_AS * cfgASEntry) : M AddOutcome :=
  let '(id, entry_cfg) := p in
  log_Info "ReloadConfig: Adding AS..." id >>
  let* '(ae, err) := AddIA id in
  match err with
  | Some e =>
      log_Error (common.Desc e) (common.Ctx e) >>
      ret {| ao_ia := id; ao_add := Some e; ao_apply := None |}
  | None =>
      let* r := call (EvReloadConfig ae entry_cfg)
                     (ASEntry_ReloadConfig ae entry_cfg) in
      log_Info "ReloadConfig: Added AS" id >>
      ret {| ao_ia := id; ao_add := None; ao_apply := Some r |}
  end.

Definition addition_phase (cfg : config.Cfg) : M (bool * list AddOutcome) :=
  let* os := for_each add_one (range_map (config.ASes cfg)) in
  ret (forallb (λ o, add_ok o && apply_ok o) os, os).

(** The keys of the registry that are absent from cfg, in the order of the
    walk. *)
Definition stale (cfg : config.Cfg) (key : addr.IAInt) : bool :=
  match config.ASes cfg !! IAInt_IA key with None => true | Some _ => false end.

Definition stale_keys (cfg : config.Cfg) (m : ASMap) : list addr.IAInt :=
  List.filter (stale cfg) (range_sync m).

Definition remove_ok (o : addr.IAInt * option common.CError) : bool :=
  match o.2 with None => true | Some _ => false end.

Definition del_one (key : addr.IAInt)
  : M (addr.IAInt * option common.CError) :=
  let id := IAInt_IA key in
  log_Info "ReloadConfig: Deleting AS..." id >>
  let* err := DelIA id in
  match err with
  | Some e => log_Error (common.Desc e) (common.Ctx e) >> ret (key, Some e)
  | None => log_Info "ReloadConfig: Deleted AS" id >> ret (key, None)
  end.

(** What a pass adds to the trace for a pair of cfg whose identifier has
    its entry in the map [m] already: the two log lines around the call of
    the entry's [ReloadConfig]. *)
Definition reconfigure_events (m : ASMap) (p : addr.ISD_AS * cfgASEntry)
  : list Event :=
  [EvLogInfo "ReloadConfig: Adding AS..." p.1;
   EvReloadConfig (match m !! ISD_AS_IAInt p.1 with
                   | Some v => v
                   | None => None
                   end) p.2;
   EvLogInfo "ReloadConfig: Added AS" p.1].

(** The entries a stretch of the trace cleans up, and the identifiers it
    calls the factory for, in the order of the calls. *)
Definition cleaned_up (t : list Event) : list (option ASEntry) :=
  flat_map (λ ev, match ev with EvCleanup ae => [ae] | _ => [] end) t.

Definition created (t : list Event) : list addr.ISD_AS :=
  flat_map (λ ev, match ev with EvNewASEntry ia => [ia] | _ => [] end) t.

Definition deletion_phase (cfg : config.Cfg)
  : M (bool * list (addr.IAInt * option common.CError)) :=
  let* keys := read_am (stale_keys cfg) in
  let* os := for_each del_one keys in
  ret (forallb remove_ok os, os).

End map_go.

End base.

(** ** A concrete environment

    Entries are numbered handles.  The factory refuses ISD 13; apply-config
    succeeds when the configuration says so; cleanup of an odd handle fails.
    The key packs the ISD above the 20 bits of the AS. *)

Module demo.

Record Devices := mkDevices { next : nat; released : list nat }.

Definition err (desc : string) : common.CError := common.NewCError desc [].

Definition new_entry (ia : addr.ISD_AS) (w : Devices)
  : (option nat * option common.CError) * Devices :=
  if addr.I ia =? 13 then ((None, Some (err "newASEntry: no TUN device")), w)
  else ((Some (next w), None),
        {| next := S (next w); released := released w |}).

Definition apply_config (ae : option nat) (c : bool) (w : Devices)
  : bool * Devices := (c, w).

Definition cleanup (ae : option nat) (w : Devices)
  : option common.CError * Devices :=
  match ae with
  | None => (None, w)
  | Some h =>
      (if Nat.odd h then Some (err "Error removing TUN link") else None,
       {| next := next w; released := h :: released w |})
  end.

Definition pack (ia : addr.ISD_AS) : addr.IAInt :=
  Z.lor (Z.shiftl (addr.I ia) 20) (Z.land (addr.A ia) (Z.ones 20)).

Definition unpack (k : addr.IAInt) : addr.ISD_AS :=
  {| addr.I := Z.shiftr k 20; addr.A := Z.land k (Z.ones 20) |}.

#[global] Instance env : Environment := {|
  World := Devices;
  ASEntry := nat;
  cfgASEntry := bool;
  ISD_AS_IAInt := pack;
  IAInt_IA := unpack;
  newASEntry := new_entry;
  ASEntry_ReloadConfig := apply_config;
  ASEntry_Cleanup := cleanup;
  range_map := map_to_list;
  range_map_perm := λ m, reflexivity (map_to_list m);
  range_sync := λ m, (map_to_list m).*1;
  range_sync_perm := λ m, reflexivity ((map_to_list m).*1);
|}.

(** An empty registry in a fresh world. *)
Definition st0 : base.State := base.mkState ∅ (mkDevices 0 []) [].

Definition AS1 : addr.ISD_AS := addr.mkISD_AS 1 11.
Definition AS2 : addr.ISD_AS := addr.mkISD_AS 1 12.
Definition AS3 : addr.ISD_AS := addr.mkISD_AS 2 21.
Definition AS13 : addr.ISD_AS := addr.mkISD_AS 13 7.

Definition cfg_of (l : list (addr.ISD_AS * bool)) : config.Cfg :=
  config.mkCfg _ (list_to_map l).

(** The registry after [AddIA] of AS1, and after [AddIA] of AS1 and AS2:
    AS1 holds handle 0, AS2 holds handle 1. *)
Definition st1 : base.State := (base.AddIA AS1 st0).2.
Definition st2 : base.State := (base.AddIA AS2 st1).2.

End demo.

(** * Properties *)

Section properties.
Context `{Env : Environment}.

Implicit Types (ia : addr.ISD_AS) (key : addr.IAInt) (st : base.State).
Implicit Types (ae : option ASEntry) (cfg : config.Cfg).

(** ** What each operation does to the state *)

Lemma Load_eq key st :
  base.Load key st =
  (match base.am st !! key with Some v => (v, true) | None => (None, false) end,
   st).
Proof.
  unfold base.Load, base.sync_Load, base.read_am, base.bind, base.ret.
  by destruct (base.am st !! key).
Qed.

Lemma wildcard_test ia :
  (addr.I ia =? 0) || (addr.A ia =? 0) = true ↔ base.wildcard ia.
Proof. unfold base.wildcard. rewrite orb_true_iff, !Z.eqb_eq. tauto. Qed.

Lemma not_wildcard_test ia :
  addr.I ia ≠ 0 → addr.A ia ≠ 0 → (addr.I ia =? 0) || (addr.A ia =? 0) = false.
Proof. intros HI HA. apply orb_false_iff. by rewrite !Z.eqb_neq. Qed.

Lemma AddIA_wildcard_eq ia st :
  base.wildcard ia →
  base.AddIA ia st =
  ((None, Some (common.NewCError "AddIA: ISD and AS must not be 0"
                  [common.CtxString "ia"; common.CtxIA ia])), st).
Proof.
  intros Hw%wildcard_test. unfold base.AddIA. by rewrite Hw.
Qed.

Lemma AddIA_concrete_eq ia st :
  addr.I ia ≠ 0 → addr.A ia ≠ 0 →
  base.AddIA ia st =
  match base.am st !! ISD_AS_IAInt ia with
  | Some ae => ((ae, None), st)
  | None =>
      let '((ae, err), w) := newASEntry ia (base.world st) in
      match err with
      | Some e =>
          ((None, Some e),
           base.mkState (base.am st) w (base.trace st ++ [base.EvNewASEntry ia]))
      | None =>
          ((ae, None),
           base.mkState (<[ISD_AS_IAInt ia := ae]> (base.am st)) w
             (base.trace st ++
              [base.EvNewASEntry ia; base.EvStore (ISD_AS_IAInt ia) ae]))
      end
  end.
Proof.
  intros HI HA. unfold base.AddIA. rewrite not_wildcard_test by done.
  unfold base.bind at 1. rewrite Load_eq.
  destruct (base.am st !! ISD_AS_IAInt ia) as [ae|]; [done|].
  unfold base.bind, base.call, base.Store, base.write_am, base.ret. simpl.
  destruct (newASEntry ia (base.world st)) as [[ae [e|]] w]; simpl; [done|].
  by rewrite <- app_assoc.
Qed.

Lemma DelIA_eq ia st :
  base.DelIA ia st =
  match base.am st !! ISD_AS_IAInt ia with
  | None =>
      (Some (common.NewCError "DelIA: No entry found"
               [common.CtxString "ia"; common.CtxIA ia]), st)
  | Some ae =>
      let '(err, w) := ASEntry_Cleanup ae (base.world st) in
      (err,
       base.mkState (delete (ISD_AS_IAInt ia) (base.am st)) w
         (base.trace st ++
          [base.EvDelete (ISD_AS_IAInt ia); base.EvCleanup ae]))
  end.
Proof.
  unfold base.DelIA. unfold base.bind at 1. rewrite Load_eq.
  destruct (base.am st !! ISD_AS_IAInt ia) as [ae|]; [|done].
  unfold base.bind, base.call, base.Delete, base.write_am, base.ret. simpl.
  destruct (ASEntry_Cleanup ae (base.world st)) as [err w].
  by rewrite <- app_assoc.
Qed.

(** ** The loops against the phases of the design *)

Lemma addNewIAs_loop_eq (todo : list (addr.ISD_AS * cfgASEntry)) s st :
  base.addNewIAs_loop todo s st =
  let '(os, st') := base.for_each base.add_one todo st in
  (forallb (λ o, base.add_ok o && base.apply_ok o) os && s, st').
Proof.
  revert s st. induction todo as [|[id c] todo IH]; intros s st; [done|].
  cbn [base.addNewIAs_loop base.for_each base.add_one].
  unfold base.bind, base.ret.
  destruct (base.log_Info _ id st) as [[] sta].
  destruct (base.AddIA id sta) as [[ae [e|]] stb].
  - destruct (base.log_Error _ _ stb) as [[] stc].
    rewrite IH. destruct (base.for_each base.add_one todo stc) as [os st'].
    cbn. by rewrite andb_false_r.
  - destruct (base.call _ _ stb) as [r stc].
    destruct (base.log_Info _ id stc) as [[] std].
    rewrite IH. destruct (base.for_each base.add_one todo std) as [os st'].
    cbn. by destruct r, s, (forallb _ os).
Qed.

Lemma for_each_add_one_ia (todo : list (addr.ISD_AS * cfgASEntry)) st :
  base.ao_ia <$> (base.for_each base.add_one todo st).1 = todo.*1.
Proof.
  revert st. induction todo as [|[id c] todo IH]; intros st; [done|].
  cbn [base.for_each base.add_one]. unfold base.bind, base.ret.
  destruct (base.log_Info _ id st) as [[] sta].
  destruct (base.AddIA id sta) as [[ae [e|]] stb].
  - destruct (base.log_Error _ _ stb) as [[] stc]. specialize (IH stc).
    destruct (base.for_each base.add_one todo stc). cbn in *. by f_equal.
  - destruct (base.call _ _ stb) as [r stc].
    destruct (base.log_Info _ id stc) as [[] std]. specialize (IH std).
    destruct (base.for_each base.add_one todo std). cbn in *. by f_equal.
Qed.

(** What [AddIA] does to the map: nothing when it fails; when it succeeds
    the key holds the entry returned, which was there or is stored now. *)
Lemma AddIA_am ia st :
  let '((ae, err), st') := base.AddIA ia st in
  match err with
  | Some _ => base.am st' = base.am st
  | None =>
      (base.am st !! ISD_AS_IAInt ia = Some ae ∧ st' = st) ∨
      (base.am st !! ISD_AS_IAInt ia = None ∧
       base.am st' = <[ISD_AS_IAInt ia := ae]> (base.am st))
  end.
Proof.
  destruct (decide (base.wildcard ia)) as [Hw|Hw].
  - by rewrite AddIA_wildcard_eq.
  - rewrite AddIA_concrete_eq by (unfold base.wildcard in Hw; tauto).
    destruct (base.am st !! ISD_AS_IAInt ia) as [ae|] eqn:Hk; [by left|].
    destruct (newASEntry ia (base.world st)) as [[ae [e|]] w]; [done|].
    by right.
Qed.

(** The same for one step of the addition phase. *)
Lemma add_one_am id (c : cfgASEntry) st :
  let '(o, st') := base.add_one (id, c) st in
  base.ao_ia o = id ∧
  match base.ao_add o with
  | Some _ => base.ao_apply o = None ∧ base.am st' = base.am st
  | None =>
      is_Some (base.ao_apply o) ∧
      ((is_Some (base.am st !! ISD_AS_IAInt id) ∧ base.am st' = base.am st) ∨
       (base.am st !! ISD_AS_IAInt id = None ∧
        ∃ ae, base.am st' = <[ISD_AS_IAInt id := ae]> (base.am st)))
  end.
Proof.
  unfold base.add_one, base.bind, base.ret.
  destruct (base.log_Info _ id st) as [[] sta] eqn:Ha.
  assert (base.am sta = base.am st) as Hsta by (by injection Ha as <-).
  pose proof (AddIA_am id sta) as HA.
  destruct (base.AddIA id sta) as [[ae [e|]] stb].
  - cbn. by rewrite <- Hsta, <- HA.
  - cbn. rewrite Hsta in HA.
    destruct (ASEntry_ReloadConfig ae c (base.world stb)) as [r w] eqn:Hr.
    unfold base.call, base.log_Info, base.call. rewrite Hr. cbn.
    split; [done|]. split; [by eexists|].
    destruct HA as [[Hk ->]|[Hk Hb]].
    + left. rewrite Hk. split; [by eexists|done].
    + right. split; [done|]. by exists ae.
Qed.

(** The map after the addition phase: what was there is still there; what
    is there now was there or is the key of an identifier whose Add
    succeeded; the key of every such identifier is there. *)
Lemma for_each_add_one_am (todo : list (addr.ISD_AS * cfgASEntry)) st :
  let '(os, st') := base.for_each base.add_one todo st in
  (∀ key v, base.am st !! key = Some v → base.am st' !! key = Some v) ∧
  (∀ key, is_Some (base.am st' !! key) →
     is_Some (base.am st !! key) ∨
     ∃ o, o ∈ os ∧ base.ao_add o = None ∧ ISD_AS_IAInt (base.ao_ia o) = key) ∧
  (∀ o, o ∈ os → base.ao_add o = None →
     is_Some (base.am st' !! ISD_AS_IAInt (base.ao_ia o))).
Proof.
  revert st. induction todo as [|[id c] todo IH]; intros st.
  { cbn. split_and!; [done|by left|]. by intros o ?%elem_of_nil. }
  cbn [base.for_each]. unfold base.bind, base.ret.
  pose proof (add_one_am id c st) as H1.
  destruct (base.add_one (id, c) st) as [o sta].
  specialize (IH sta).
  destruct (base.for_each base.add_one todo sta) as [os st'].
  destruct H1 as [Hid H1], IH as (IHa & IHb & IHc).
  assert (∀ key v, base.am st !! key = Some v → base.am sta !! key = Some v)
    as Hmono.
  { intros key v Hv. destruct (base.ao_add o).
    - destruct H1 as [_ ->]. done.
    - destruct H1 as [_ [[_ ->]|[Hk [ae ->]]]]; [done|].
      rewrite lookup_insert_ne; [done|]. intros <-. congruence. }
  split_and!.
  - intros key v Hv. by apply IHa, Hmono.
  - intros key Hkey. destruct (IHb key Hkey) as [Hsta|(o' & Ho' & Hadd & Hk)].
    + destruct (base.ao_add o) eqn:Hadd.
      * destruct H1 as [_ H1]. rewrite H1 in Hsta. by left.
      * destruct H1 as [_ [[_ H1]|[_ [ae H1]]]].
        { rewrite H1 in Hsta. by left. }
        rewrite H1 in Hsta.
        destruct (decide (ISD_AS_IAInt id = key)) as [<-|Hne].
        { right. exists o. rewrite Hid. split_and!; [left|done|done]. }
        rewrite lookup_insert_ne in Hsta by done. by left.
    + right. exists o'. split_and!; [by right|done|done].
  - intros o' [->|Ho']%elem_of_cons Hadd; [|by apply IHc].
    rewrite Hadd in H1. rewrite Hid.
    destruct H1 as [_ [[[v Hv] H1]|[_ [ae H1]]]].
    + exists v. apply IHa. by rewrite H1.
    + exists ae. apply IHa. rewrite H1. by rewrite lookup_insert_eq.
Qed.

(** One step of the deletion phase: the outcome is that of the key, and the
    map loses the key the identifier packs into. *)
Lemma del_one_am key st :
  let '(o, st') := base.del_one key st in
  o.1 = key ∧
  base.am st' = delete (ISD_AS_IAInt (IAInt_IA key)) (base.am st).
Proof.
  unfold base.del_one, base.bind, base.ret.
  destruct (base.log_Info _ _ st) as [[] sta] eqn:Ha.
  assert (base.am sta = base.am st ∧ base.world sta = base.world st)
    as [Hsta Hw] by (by injection Ha as <-).
  rewrite DelIA_eq, Hsta.
  destruct (base.am st !! _) as [ae|] eqn:Hk; cbn.
  - destruct (ASEntry_Cleanup ae (base.world sta)) as [[e|] w]; by cbn.
  - by rewrite delete_id.
Qed.

(** The closure of [delOldIAs] is that step, taken for the stale keys. *)
Lemma delOldIAs_visit_eq cfg key ae (s : bool) st :
  base.delOldIAs_visit cfg key ae s st =
  if base.stale cfg key
  then let '(o, st') := base.del_one key st in
       ((true, base.remove_ok o && s), st')
  else ((true, s), st).
Proof.
  unfold base.delOldIAs_visit, base.stale, base.del_one.
  destruct (config.ASes cfg !! IAInt_IA key); [done|].
  unfold base.bind, base.ret.
  destruct (base.log_Info _ _ st) as [[] sta].
  destruct (base.DelIA _ sta) as [[e|] stb].
  - by destruct (base.log_Error _ _ stb) as [[] stc].
  - by destruct (base.log_Info _ _ stb) as [[] stc].
Qed.

Lemma sync_Range_keys_eq cfg (keys : list addr.IAInt) (s : bool) st :
  NoDup keys →
  (∀ key, key ∈ keys →
     is_Some (base.am st !! key) ∧ ISD_AS_IAInt (IAInt_IA key) = key) →
  base.sync_Range_keys (base.delOldIAs_visit cfg) keys s st =
  let '(os, st') :=
    base.for_each base.del_one (List.filter (base.stale cfg) keys) st in
  (forallb base.remove_ok os && s, st').
Proof.
  revert s st. induction keys as [|key keys IH]; intros s st Hnd Hkeys; [done|].
  apply NoDup_cons in Hnd as [Hnotin Hnd].
  destruct (Hkeys key) as [[ae Hae] Hrt]; [left|].
  cbn [base.sync_Range_keys List.filter].
  unfold base.bind at 1. unfold base.read_am at 1. rewrite Hae.
  unfold base.bind at 1. rewrite delOldIAs_visit_eq.
  destruct (base.stale cfg key).
  - cbn [base.for_each]. unfold base.bind at 1.
    pose proof (del_one_am key st) as Hdel.
    destruct (base.del_one key st) as [o sta]. destruct Hdel as [_ Hdel].
    rewrite Hrt in Hdel. rewrite IH; [|done|].
    + unfold base.bind, base.ret.
      destruct (base.for_each _ _ sta) as [os st']. cbn.
      by destruct (base.remove_ok o), s, (forallb _ os).
    + intros key' Hin. destruct (Hkeys key') as [Hsome ?]; [by right|].
      split; [|done]. rewrite Hdel, lookup_delete_ne; [done|].
      by intros ->.
  - apply IH; [done|]. intros key' Hin. apply Hkeys. by right.
Qed.

Lemma for_each_del_one_keys (keys : list addr.IAInt) st :
  (base.for_each base.del_one keys st).1.*1 = keys.
Proof.
  revert st. induction keys as [|key keys IH]; intros st; [done|].
  cbn [base.for_each]. unfold base.bind, base.ret.
  pose proof (del_one_am key st) as Hdel.
  destruct (base.del_one key st) as [o sta]. destruct Hdel as [Ho _].
  specialize (IH sta). destruct (base.for_each _ keys sta).
  cbn in *. by f_equal.
Qed.

(** The map after the steps for [keys]: those keys are gone, the others
    are as they were. *)
Lemma for_each_del_one_am (keys : list addr.IAInt) st :
  (∀ key, key ∈ keys → ISD_AS_IAInt (IAInt_IA key) = key) →
  ∀ key, base.am (base.for_each base.del_one keys st).2 !! key =
         if decide (key ∈ keys) then None else base.am st !! key.
Proof.
  revert st. induction keys as [|k keys IH]; intros st Hrt key.
  { cbn. by rewrite decide_False by apply not_elem_of_nil. }
  cbn [base.for_each]. unfold base.bind, base.ret.
  pose proof (del_one_am k st) as Hdel.
  destruct (base.del_one k st) as [o sta]. destruct Hdel as [_ Hdel].
  rewrite Hrt in Hdel by left.
  specialize (IH sta (λ k' Hk', Hrt k' (list_elem_of_further _ _ _ Hk')) key).
  destruct (base.for_each _ keys sta) as [os st']. cbn in *.
  rewrite IH, Hdel. destruct (decide (key = k)) as [->|Hne].
  - rewrite lookup_delete_eq, (decide_True (P := k ∈ k :: keys)) by left.
    by destruct (decide (k ∈ keys)).
  - rewrite lookup_delete_ne by done.
    destruct (decide (key ∈ keys)) as [Hin|Hnin].
    + by rewrite decide_True by (by right).
    + rewrite decide_False; [done|]. by intros [?|?]%elem_of_cons.
Qed.

(** The keys the walk of [Range] starts from are those of the map. *)
Lemma range_sync_keys (m : gmap addr.IAInt (option ASEntry)) :
  NoDup (range_sync m) ∧ ∀ key, key ∈ range_sync m ↔ is_Some (m !! key).
Proof.
  split.
  - rewrite range_sync_perm. apply NoDup_fst_map_to_list.
  - intros key. rewrite range_sync_perm, list_elem_of_fmap. split.
    + intros ([k v] & -> & Hin). apply elem_of_map_to_list in Hin. by exists v.
    + intros [v Hv]. exists (key, v). split; [done|].
      by apply elem_of_map_to_list.
Qed.

Lemma stale_keys_spec cfg (m : gmap addr.IAInt (option ASEntry)) key :
  key ∈ base.stale_keys cfg m ↔
  is_Some (m !! key) ∧ config.ASes cfg !! IAInt_IA key = None.
Proof.
  unfold base.stale_keys. rewrite list_elem_of_In, filter_In, <- list_elem_of_In.
  rewrite (proj2 (range_sync_keys m)). unfold base.stale.
  destruct (config.ASes cfg !! IAInt_IA key).
  - split; intros [_ H]; discriminate H.
  - split; intros [? _]; done.
Qed.

Lemma delOldIAs_eq cfg st :
  (∀ key, is_Some (base.am st !! key) → ISD_AS_IAInt (IAInt_IA key) = key) →
  base.delOldIAs cfg st =
  let '(os, st') :=
    base.for_each base.del_one (base.stale_keys cfg (base.am st)) st in
  (forallb base.remove_ok os, st').
Proof.
  intros Hrt. unfold base.delOldIAs, base.Range, base.sync_Range.
  unfold base.bind at 1. unfold base.read_am at 1.
  destruct (range_sync_keys (base.am st)) as [Hnd Hin].
  rewrite sync_Range_keys_eq; [|done|].
  - unfold base.stale_keys. destruct (base.for_each _ _ st) as [os st'].
    by rewrite andb_true_r.
  - intros key Hkey%Hin. auto.
Qed.

Lemma for_each_add_one_apply (todo : list (addr.ISD_AS * cfgASEntry)) st o :
  o ∈ (base.for_each base.add_one todo st).1 →
  if base.add_ok o then is_Some (base.ao_apply o) else base.ao_apply o = None.
Proof.
  revert st. induction todo as [|[id c] todo IH]; intros st.
  { by intros ?%elem_of_nil. }
  cbn [base.for_each]. unfold base.bind, base.ret.
  pose proof (add_one_am id c st) as H1.
  destruct (base.add_one (id, c) st) as [o' sta]. specialize (IH sta).
  destruct (base.for_each base.add_one todo sta) as [os st']. cbn in *.
  intros [->|Hin]%elem_of_cons; [|by apply IH].
  unfold base.add_ok. destruct (base.ao_add o'); tauto.
Qed.

(** The pairs the addition phase ranges over are those of cfg. *)
Lemma range_map_keys (m : gmap addr.ISD_AS cfgASEntry) :
  NoDup (range_map m).*1 ∧ ∀ id, id ∈ (range_map m).*1 ↔ is_Some (m !! id).
Proof.
  split.
  - rewrite range_map_perm. apply NoDup_fst_map_to_list.
  - intros id. rewrite range_map_perm, list_elem_of_fmap. split.
    + intros ([k v] & -> & Hin). apply elem_of_map_to_list in Hin. by exists v.
    + intros [v Hv]. exists (id, v). split; [done|].
      by apply elem_of_map_to_list.
Qed.

Lemma addNewIAs_state cfg st :
  (base.addNewIAs cfg st).2 =
  (base.for_each base.add_one (range_map (config.ASes cfg)) st).2.
Proof.
  unfold base.addNewIAs. rewrite addNewIAs_loop_eq.
  by destruct (base.for_each base.add_one _ st).
Qed.

Lemma addition_phase_outcomes cfg st :
  (base.addition_phase cfg st).1.2 =
  (base.for_each base.add_one (range_map (config.ASes cfg)) st).1.
Proof.
  unfold base.addition_phase, base.bind, base.ret.
  by destruct (base.for_each base.add_one _ st).
Qed.

Lemma deletion_phase_outcomes cfg st :
  (base.deletion_phase cfg st).1.2 =
  (base.for_each base.del_one (base.stale_keys cfg (base.am st)) st).1.
Proof.
  unfold base.deletion_phase, base.bind, base.ret, base.read_am.
  by destruct (base.for_each base.del_one _ st).
Qed.

Lemma ReloadConfig_state cfg st :
  (base.ReloadConfig cfg st).2 =
  (base.delOldIAs cfg (base.addNewIAs cfg st).2).2.
Proof.
  unfold base.ReloadConfig, base.bind, base.ret.
  destruct (base.addNewIAs cfg st) as [s st1]. cbn [snd].
  by destruct (base.delOldIAs cfg st1) as [d st2].
Qed.

(** The map after the deletion phase: the stale keys are gone, the others
    are as they were. *)
Lemma delOldIAs_am cfg st key :
  (∀ key, is_Some (base.am st !! key) → ISD_AS_IAInt (IAInt_IA key) = key) →
  base.am (base.delOldIAs cfg st).2 !! key =
  match config.ASes cfg !! IAInt_IA key with
  | None => None
  | Some _ => base.am st !! key
  end.
Proof.
  intros Hrt. rewrite delOldIAs_eq by done.
  pose proof (for_each_del_one_am (base.stale_keys cfg (base.am st)) st) as Hd.
  destruct (base.for_each base.del_one _ st) as [os st']. cbn in *.
  rewrite Hd.
  - pose proof (stale_keys_spec cfg (base.am st) key) as Hs.
    case_decide as Hin.
    + apply Hs in Hin as [_ ->]. done.
    + destruct (config.ASes cfg !! IAInt_IA key) eqn:Hc; [done|].
      destruct (base.am st !! key) eqn:Hk; [|done].
      exfalso. apply Hin, Hs. by split.
  - intros k [Hk _]%stale_keys_spec. by apply Hrt.
Qed.

(** ** AddIA *)

(** C3. For a concrete identifier (both parts non-zero) whose key already
    has an entry, [AddIA] returns that entry and no error and leaves the
    whole state as it was: the map, the world (the factory is not called)
    and the trace.  Hence whenever a call of [AddIA] returned an entry, the
    next call returns the same entry and changes nothing. *)
Theorem AddIA_idempotent ia st ae :
  addr.I ia ≠ 0 → addr.A ia ≠ 0 →
  base.am st !! ISD_AS_IAInt ia = Some ae →
  base.AddIA ia st = ((ae, None), st) ∧
  (∀ st0 ae1 st1,
     base.AddIA ia st0 = ((ae1, None), st1) →
     base.AddIA ia st1 = ((ae1, None), st1)).
Proof.
  intros HI HA Hin. split.
  - by rewrite AddIA_concrete_eq, Hin.
  - intros st0 ae1 st1. rewrite (AddIA_concrete_eq ia st0) by done.
    destruct (base.am st0 !! ISD_AS_IAInt ia) as [ae0|] eqn:H0.
    + intros [= -> ->]. by rewrite AddIA_concrete_eq, H0.
    + destruct (newASEntry ia (base.world st0)) as [[ae' [e|]] w]; [done|].
      intros [= -> <-]. rewrite AddIA_concrete_eq by done. simpl.
      by rewrite lookup_insert_eq.
Qed.

(** C4. For a wildcard (either part zero) [AddIA] returns no entry and the
    invalid-identifier error, whose context carries the identifier, and
    the state is untouched. *)
Theorem AddIA_wildcard ia st :
  base.wildcard ia →
  ∃ e, base.AddIA ia st = ((None, Some e), st) ∧
       common.Desc e = "AddIA: ISD and AS must not be 0" ∧
       base.kind_of e = base.InvalidIdentifier ∧
       common.CtxIA ia ∈ common.Ctx e.
Proof.
  intros Hw. eexists. split; [by apply AddIA_wildcard_eq|].
  split; [done|]. split; [done|]. simpl. set_solver.
Qed.

(** C5. For a concrete identifier whose key has no entry, when the factory
    fails, [AddIA] returns the factory's error and no entry; the map is the
    one it was (nothing is stored under the key), only the factory call
    shows in the world and in the trace. *)
Theorem AddIA_factory_failure ia st ae e w :
  addr.I ia ≠ 0 → addr.A ia ≠ 0 →
  base.am st !! ISD_AS_IAInt ia = None →
  newASEntry ia (base.world st) = ((ae, Some e), w) →
  base.AddIA ia st =
    ((None, Some e),
     base.mkState (base.am st) w (base.trace st ++ [base.EvNewASEntry ia])) ∧
  base.am (base.AddIA ia st).2 = base.am st ∧
  base.am (base.AddIA ia st).2 !! ISD_AS_IAInt ia = None.
Proof.
  intros HI HA Hout Hnew.
  rewrite AddIA_concrete_eq, Hout, Hnew by done. by simpl.
Qed.

(** ** DelIA *)

(** C6. For an identifier whose key has an entry, [DelIA] deletes the key
    and then calls that entry's [Cleanup], once: these are the two events
    it adds to the trace, in this order, and the world is the one
    [Cleanup] leaves.  What [Cleanup] returns is what [DelIA] returns, and
    whether or not that is an error the key is absent afterwards and no
    other key is touched. *)
Theorem DelIA_present ia st ae :
  base.am st !! ISD_AS_IAInt ia = Some ae →
  let '(err, st') := base.DelIA ia st in
  (err, base.world st') = ASEntry_Cleanup ae (base.world st) ∧
  base.trace st' =
    base.trace st ++ [base.EvDelete (ISD_AS_IAInt ia); base.EvCleanup ae] ∧
  base.am st' = delete (ISD_AS_IAInt ia) (base.am st) ∧
  base.am st' !! ISD_AS_IAInt ia = None.
Proof.
  intros Hin. rewrite DelIA_eq, Hin.
  destruct (ASEntry_Cleanup ae (base.world st)) as [err w]. simpl.
  by rewrite lookup_delete_eq.
Qed.

(** C7. For an identifier whose key has no entry, [DelIA] returns the
    not-found error, whose context carries the identifier, and the state is
    untouched: no entry changes, nothing is cleaned up. *)
Theorem DelIA_absent ia st :
  base.am st !! ISD_AS_IAInt ia = None →
  ∃ e, base.DelIA ia st = (Some e, st) ∧
       common.Desc e = "DelIA: No entry found" ∧
       base.kind_of e = base.NotFound ∧
       common.CtxIA ia ∈ common.Ctx e.
Proof.
  intros Hout. rewrite DelIA_eq, Hout. eexists. split; [done|].
  split; [done|]. split; [done|]. simpl. set_solver.
Qed.

(** C9 as the code has it.  [DelIA] has no test for wildcards: a wildcard
    is looked up like any identifier.  With nothing under its key [DelIA]
    returns the not-found error, whose context carries the identifier, and
    the state is untouched; with an entry under its key the key is deleted
    and the entry cleaned up, and [DelIA] returns what [Cleanup] returns. *)
Theorem DelIA_wildcard ia st :
  base.wildcard ia →
  match base.am st !! ISD_AS_IAInt ia with
  | None =>
      ∃ e, base.DelIA ia st = (Some e, st) ∧
           common.Desc e = "DelIA: No entry found" ∧
           base.kind_of e = base.NotFound ∧
           common.CtxIA ia ∈ common.Ctx e
  | Some ae =>
      (base.DelIA ia st).1 = (ASEntry_Cleanup ae (base.world st)).1 ∧
      base.am (base.DelIA ia st).2 = delete (ISD_AS_IAInt ia) (base.am st) ∧
      base.trace (base.DelIA ia st).2 =
        base.trace st ++ [base.EvDelete (ISD_AS_IAInt ia); base.EvCleanup ae]
  end.
Proof.
  intros _. rewrite DelIA_eq.
  destruct (base.am st !! ISD_AS_IAInt ia) as [ae|].
  - by destruct (ASEntry_Cleanup ae (base.world st)).
  - eexists. split; [done|]. split; [done|]. split; [done|]. simpl. set_solver.
Qed.

(** ** ASEntry *)

(** C10. The lookup checks nothing about the identifier and changes nothing:
    for every identifier it returns what is stored under its key, nil when
    nothing is, and the state after is the state before. *)
Theorem ASEntry_lookup ia st :
  base.ASMap_ASEntry ia st =
  (match base.am st !! ISD_AS_IAInt ia with Some v => v | None => None end,
   st).
Proof.
  unfold base.ASMap_ASEntry, base.bind. rewrite Load_eq.
  by destruct (base.am st !! ISD_AS_IAInt ia).
Qed.

(** ** ReloadConfig *)

(** C1. [ReloadConfig] runs [addNewIAs] from the state it is given, then
    [delOldIAs] from the state [addNewIAs] left, whatever [addNewIAs]
    returned, and returns the conjunction of the two results.  So the
    deletion does its work also when the addition reported failures: where
    the keys left by the addition unpack and pack to themselves, every key
    whose identifier is absent from cfg is gone after the pass. *)
Theorem ReloadConfig_both_phases cfg st :
  let '(s, st1) := base.addNewIAs cfg st in
  let '(d, st2) := base.delOldIAs cfg st1 in
  base.ReloadConfig cfg st = (d && s, st2) ∧
  ((∀ key, is_Some (base.am st1 !! key) → ISD_AS_IAInt (IAInt_IA key) = key) →
   ∀ key, config.ASes cfg !! IAInt_IA key = None → base.am st2 !! key = None).
Proof.
  unfold base.ReloadConfig, base.bind, base.ret.
  destruct (base.addNewIAs cfg st) as [s st1].
  pose proof (λ key, delOldIAs_am cfg st1 key) as Hdel.
  destruct (base.delOldIAs cfg st1) as [d st2]. split; [done|].
  intros Hrt key Hc. cbn [snd] in Hdel. by rewrite Hdel, Hc.
Qed.

(** C8. Under the packing of addr, where unpacking a key of the registry
    and packing it again gives the key back, the two loops are the two
    phases of the design.  [addNewIAs] takes the step of the addition phase
    for every pair of cfg, each once: Add, and when Add succeeded
    apply-config on the entry returned, whatever was recorded before; it
    returns the conjunction of everything recorded.  [delOldIAs] takes the
    step of the deletion phase, a call of [DelIA], for the keys that are in
    the registry and whose identifier is absent from cfg, each once, and
    returns the conjunction of the outcomes. *)
Theorem ReloadConfig_phases cfg st :
  (∀ key, is_Some (base.am st !! key) → ISD_AS_IAInt (IAInt_IA key) = key) →
  (let '((s, os), st') := base.addition_phase cfg st in
   base.addNewIAs cfg st = (s, st') ∧
   s = forallb (λ o, base.add_ok o && base.apply_ok o) os ∧
   base.ao_ia <$> os ≡ₚ (map_to_list (config.ASes cfg)).*1 ∧
   ∀ o, o ∈ os →
     if base.add_ok o then is_Some (base.ao_apply o)
     else base.ao_apply o = None) ∧
  (let '((d, os), st') := base.deletion_phase cfg st in
   base.delOldIAs cfg st = (d, st') ∧
   d = forallb base.remove_ok os ∧
   NoDup os.*1 ∧
   ∀ key, key ∈ os.*1 ↔
          is_Some (base.am st !! key) ∧
          config.ASes cfg !! IAInt_IA key = None).
Proof.
  intros Hrt. split.
  - unfold base.addition_phase, base.addNewIAs, base.bind, base.ret.
    rewrite addNewIAs_loop_eq.
    pose proof (for_each_add_one_ia (range_map (config.ASes cfg)) st) as Hia.
    pose proof (for_each_add_one_apply (range_map (config.ASes cfg)) st) as Hap.
    destruct (base.for_each base.add_one _ st) as [os st']. cbn in *.
    split_and!; [by rewrite andb_true_r|done| |done].
    by rewrite Hia, range_map_perm.
  - unfold base.deletion_phase, base.bind, base.ret.
    unfold base.read_am at 1. rewrite delOldIAs_eq by done.
    pose proof (for_each_del_one_keys (base.stale_keys cfg (base.am st)) st)
      as Hkeys.
    destruct (base.for_each base.del_one _ st) as [os st']. cbn in *.
    split_and!; [done|done| |].
    + rewrite Hkeys. unfold base.stale_keys. apply NoDup_ListNoDup.
      apply List.NoDup_filter, NoDup_ListNoDup, range_sync_keys.
    + intros key. rewrite Hkeys. apply stale_keys_spec.
Qed.

(** C2 as the code has it.  Let unpacking and packing give back every key
    of the registry and every identifier of cfg.  After [ReloadConfig]:
    - when every Add of the pass succeeded, the keys of the registry are
      the keys of the identifiers of cfg, whatever the Removes returned;
    - the key of an identifier whose Add failed holds what it held before;
    - a key that was there and whose identifier is in cfg still holds its
      entry;
    - a key whose identifier is not in cfg is absent, also when its Remove
      failed: a Remove fails in the sweep only through [Cleanup], after the
      key is gone. *)
Theorem ReloadConfig_converges cfg st :
  (∀ key, is_Some (base.am st !! key) → ISD_AS_IAInt (IAInt_IA key) = key) →
  (∀ id, is_Some (config.ASes cfg !! id) → IAInt_IA (ISD_AS_IAInt id) = id) →
  let os := (base.addition_phase cfg st).1.2 in
  let st1 := (base.addNewIAs cfg st).2 in
  let ds := (base.deletion_phase cfg st1).1.2 in
  let st' := (base.ReloadConfig cfg st).2 in
  ((∀ o, o ∈ os → base.ao_add o = None) →
   dom (base.am st') = set_map ISD_AS_IAInt (dom (config.ASes cfg))) ∧
  (∀ o, o ∈ os → base.ao_add o ≠ None →
     base.am st' !! ISD_AS_IAInt (base.ao_ia o) =
     base.am st !! ISD_AS_IAInt (base.ao_ia o)) ∧
  (∀ key v, base.am st !! key = Some v →
     is_Some (config.ASes cfg !! IAInt_IA key) →
     base.am st' !! key = Some v) ∧
  (∀ key, config.ASes cfg !! IAInt_IA key = None →
     base.am st' !! key = None) ∧
  (∀ key e, (key, Some e) ∈ ds →
     is_Some (base.am st1 !! key) ∧ base.am st' !! key = None).
Proof.
  intros Hrt Hcfg os st1 ds st'.
  destruct (range_map_keys (config.ASes cfg)) as [Hnd Hin].
  pose proof (for_each_add_one_ia (range_map (config.ASes cfg)) st) as Hia.
  pose proof (for_each_add_one_am (range_map (config.ASes cfg)) st) as Ham.
  assert (os = (base.for_each base.add_one (range_map (config.ASes cfg)) st).1)
    as Hos by apply addition_phase_outcomes.
  assert (st1 = (base.for_each base.add_one (range_map (config.ASes cfg)) st).2)
    as Hst1 by apply addNewIAs_state.
  destruct (base.for_each base.add_one _ st) as [os0 st10].
  cbn in Hia, Hos, Hst1. subst os0 st10. destruct Ham as (Hmono & Hnew & Hadded).
  (* every identifier the phase recorded is one of cfg *)
  assert (∀ o, o ∈ os → is_Some (config.ASes cfg !! base.ao_ia o)) as Hoscfg.
  { intros o Ho. apply Hin. rewrite <- Hia. by apply list_elem_of_fmap_2. }
  (* the keys after the addition phase still unpack and pack to themselves *)
  assert (∀ key, is_Some (base.am st1 !! key) →
                 ISD_AS_IAInt (IAInt_IA key) = key) as Hrt1.
  { intros key [Hk|(o & Ho & _ & <-)]%Hnew; [by apply Hrt|].
    by rewrite Hcfg by by apply Hoscfg. }
  assert (∀ key, base.am st' !! key =
                 match config.ASes cfg !! IAInt_IA key with
                 | None => None
                 | Some _ => base.am st1 !! key
                 end) as Hfinal.
  { intros key. unfold st'. rewrite ReloadConfig_state. by apply delOldIAs_am. }
  (* an outcome is determined by its identifier *)
  assert (∀ o o', o ∈ os → o' ∈ os → base.ao_ia o = base.ao_ia o' → o = o')
    as Huniq.
  { intros o o' [i Hi]%list_elem_of_lookup [j Hj]%list_elem_of_lookup Heq.
    rewrite <- Hia in Hnd.
    assert (i = j) as ->; [|congruence].
    apply (NoDup_lookup _ i j (base.ao_ia o) Hnd).
    - by rewrite list_lookup_fmap, Hi.
    - by rewrite list_lookup_fmap, Hj, Heq. }
  split_and!.
  - intros Hall. apply set_eq. intros key.
    rewrite elem_of_dom, elem_of_map, Hfinal. split.
    + destruct (config.ASes cfg !! IAInt_IA key) eqn:Hc; [|by intros [? ?]].
      intros Hk. exists (IAInt_IA key). split; [by rewrite Hrt1|].
      apply elem_of_dom. by rewrite Hc.
    + intros (id & -> & Hid%elem_of_dom).
      rewrite Hcfg by done. destruct Hid as [c Hc]. rewrite Hc.
      assert (id ∈ base.ao_ia <$> os) as (o & -> & Ho)%list_elem_of_fmap.
      { rewrite Hia. apply Hin. by rewrite Hc. }
      apply Hadded; [done|]. by apply Hall.
  - intros o Ho Hfail. rewrite Hfinal, Hcfg by by apply Hoscfg.
    destruct (Hoscfg o Ho) as [c ->].
    destruct (base.am st !! ISD_AS_IAInt (base.ao_ia o)) as [v|] eqn:Hk.
    { by apply Hmono. }
    destruct (base.am st1 !! ISD_AS_IAInt (base.ao_ia o)) as [v|] eqn:Hk1; [|done].
    destruct (Hnew (ISD_AS_IAInt (base.ao_ia o))) as [[? ?]|(o' & Ho' & Hadd & Heq)].
    + by rewrite Hk1.
    + congruence.
    + exfalso. apply Hfail. rewrite <- (Huniq o' o); [done..|].
      rewrite <- (Hcfg (base.ao_ia o')), <- (Hcfg (base.ao_ia o)); auto.
      by rewrite Heq.
  - intros key v Hk [c Hc]. rewrite Hfinal, Hc. by apply Hmono.
  - intros key Hc. by rewrite Hfinal, Hc.
  - intros key e Hin'.
    assert (key ∈ base.stale_keys cfg (base.am st1)) as [Hk Hc]%stale_keys_spec.
    { rewrite <- (for_each_del_one_keys _ st1).
      unfold ds in Hin'. rewrite deletion_phase_outcomes in Hin'.
      by apply (list_elem_of_fmap_2 fst) in Hin'. }
    split; [done|]. by rewrite Hfinal, Hc.
Qed.

End properties.

(** * The accessors and how the operations compose *)

Section composition.
Context `{Env : Environment}.

Implicit Types (ia : addr.ISD_AS) (key : addr.IAInt) (st : base.State).
Implicit Types (ae : option ASEntry) (cfg : config.Cfg).

(** ** Store, Delete, Load, LoadOrStore *)

(** X1. [Load] after [Store] gives the value stored, found, whatever was
    under the key before; the answer of [Load] for any other key is the one
    it was. *)
Theorem Store_Load key ae st :
  let st' := (base.Store key ae st).2 in
  base.Load key st' = ((ae, true), st') ∧
  ∀ key', key' ≠ key → (base.Load key' st').1 = (base.Load key' st).1.
Proof.
  intros st'.
  assert (base.am st' = <[key := ae]> (base.am st)) as Ham by done.
  split.
  - by rewrite Load_eq, Ham, lookup_insert_eq.
  - intros key' Hne. by rewrite !Load_eq, Ham, lookup_insert_ne.
Qed.

(** X2. [Load] after [Delete] finds nothing and gives nil; the answer for
    any other key is the one it was; and deleting a key that has no entry
    leaves the map as it is. *)
Theorem Delete_Load key st :
  let st' := (base.Delete key st).2 in
  base.Load key st' = ((None, false), st') ∧
  (∀ key', key' ≠ key → (base.Load key' st').1 = (base.Load key' st).1) ∧
  (base.am st !! key = None → base.am st' = base.am st).
Proof.
  intros st'.
  assert (base.am st' = delete key (base.am st)) as Ham by done.
  split_and!.
  - by rewrite Load_eq, Ham, lookup_delete_eq.
  - intros key' Hne. by rewrite !Load_eq, Ham, lookup_delete_ne.
  - rewrite Ham. apply delete_id.
Qed.

Lemma LoadOrStore_eq key ae st :
  base.LoadOrStore key ae st =
  match base.am st !! key with
  | Some v => ((v, true), st)
  | None =>
      ((ae, false),
       base.mkState (<[key := ae]> (base.am st)) (base.world st)
         (base.trace st ++ [base.EvStore key ae]))
  end.
Proof.
  unfold base.LoadOrStore, base.sync_LoadOrStore, base.bind, base.read_am.
  by destruct (base.am st !! key).
Qed.

(** X3. [LoadOrStore] never overwrites.  When the key has an entry it
    returns that entry and true and changes nothing; when it has none it
    stores the value given and returns it and false.  Either way the key
    then holds what was returned, and a second [LoadOrStore], with any
    value, returns the same and true. *)
Theorem LoadOrStore_spec key ae st :
  let '((actual, loaded), st') := base.LoadOrStore key ae st in
  base.am st' !! key = Some actual ∧
  (if loaded then base.am st !! key = Some actual ∧ st' = st
   else base.am st !! key = None ∧ actual = ae ∧
        base.am st' = <[key := ae]> (base.am st)) ∧
  ∀ ae', base.LoadOrStore key ae' st' = ((actual, true), st').
Proof.
  rewrite LoadOrStore_eq. destruct (base.am st !! key) as [v|] eqn:Hk.
  - split; [done|]. split; [done|]. intros ae'. by rewrite LoadOrStore_eq, Hk.
  - cbn. rewrite lookup_insert_eq. split; [done|]. split; [done|].
    intros ae'. rewrite LoadOrStore_eq. cbn. by rewrite lookup_insert_eq.
Qed.

(** ** Range *)

Lemma range_sync_empty : range_sync ∅ = [].
Proof.
  apply Permutation_nil_r. by rewrite range_sync_perm, map_to_list_empty.
Qed.

Lemma sync_Range_keys_pure {Acc} (f : addr.IAInt → option ASEntry → Acc → Acc)
    (keys : list addr.IAInt) (acc : Acc) st :
  base.sync_Range_keys (λ k v a, base.ret (true, f k v a)) keys acc st =
  (foldl (λ a k, match base.am st !! k with Some v => f k v a | None => a end)
         acc keys, st).
Proof.
  revert acc. induction keys as [|k keys IH]; intros acc; [done|].
  cbn [base.sync_Range_keys foldl].
  unfold base.bind at 1. unfold base.read_am at 1.
  destruct (base.am st !! k) as [v|]; [|by apply IH].
  unfold base.bind, base.ret. apply IH.
Qed.

(** X4. A visitor that changes nothing and always asks to go on is handed
    every entry of the map, each once: [Range] folds it over a list that is
    a permutation of the entries, and leaves the state as it is. *)
Theorem Range_visits_each_entry_once {Acc}
    (f : addr.IAInt → option ASEntry → Acc → Acc) (acc : Acc) st :
  ∃ entries,
    entries ≡ₚ map_to_list (base.am st) ∧
    base.Range (λ k v a, base.ret (true, f k v a)) acc st =
    (foldl (λ a kv, f kv.1 kv.2 a) acc entries, st).
Proof.
  set (m := base.am st).
  set (pair_of := λ k : addr.IAInt,
         (k, match m !! k with Some v => v | None => None end)).
  exists (pair_of <$> range_sync m). split.
  - rewrite range_sync_perm, <- list_fmap_compose.
    rewrite (list_fmap_ext (pair_of ∘ fst) id (map_to_list m));
      [by rewrite list_fmap_id|].
    intros i [k v] Hi. cbn.
    apply list_elem_of_lookup_2, elem_of_map_to_list in Hi.
    unfold pair_of. by rewrite Hi.
  - unfold base.Range, base.sync_Range. unfold base.bind at 1.
    unfold base.read_am at 1. fold m. rewrite sync_Range_keys_pure.
    rewrite foldl_fmap. f_equal. fold m.
    assert (∀ k, k ∈ range_sync m → is_Some (m !! k)) as Hin.
    { intros k. apply range_sync_keys. }
    revert acc. induction (range_sync m) as [|k keys IH]; intros acc; [done|].
    cbn [foldl]. destruct (Hin k) as [v Hv]; [left|].
    replace (f (pair_of k).1 (pair_of k).2 acc) with (f k v acc)
      by (unfold pair_of; cbn; by rewrite Hv).
    rewrite Hv. apply IH. intros k' Hk'. apply Hin. by right.
Qed.

(** X5. A visitor that asks to stop is called once at most: on a map
    without entries [Range] does not call it and changes nothing, and
    otherwise [Range] is one call of the visitor, on an entry of the
    map. *)
Theorem Range_stops {Acc}
    (f : addr.IAInt → option ASEntry → Acc → base.M (bool * Acc))
    (acc : Acc) st :
  (∀ k v a s, (f k v a s).1.1 = false) →
  (base.am st = ∅ → base.Range f acc st = (acc, st)) ∧
  (base.am st ≠ ∅ →
   ∃ k v, base.am st !! k = Some v ∧
          base.Range f acc st = ((f k v acc st).1.2, (f k v acc st).2)).
Proof.
  intros Hstop.
  assert (base.Range f acc st =
          base.sync_Range_keys f (range_sync (base.am st)) acc st) as ->
    by done.
  split.
  - intros ->. by rewrite range_sync_empty.
  - intros Hne. destruct (range_sync_keys (base.am st)) as [_ Hin].
    destruct (range_sync (base.am st)) as [|k keys].
    + exfalso. apply Hne, map_empty. intros i.
      destruct (base.am st !! i) eqn:Hi; [|done].
      exfalso. apply (not_elem_of_nil i), Hin. by rewrite Hi.
    + destruct (Hin k) as [[v Hv] _]; [left|]. exists k, v. split; [done|].
      cbn [base.sync_Range_keys]. unfold base.bind at 1.
      unfold base.read_am at 1. rewrite Hv. unfold base.bind, base.ret.
      specialize (Hstop k v acc st).
      destruct (f k v acc st) as [[continue acc'] st']. cbn in *.
      by rewrite Hstop.
Qed.

(** ** AddIA and DelIA *)

Lemma ASMap_ASEntry_eq ia st :
  base.ASMap_ASEntry ia st =
  (match base.am st !! ISD_AS_IAInt ia with Some v => v | None => None end,
   st).
Proof.
  unfold base.ASMap_ASEntry, base.bind. rewrite Load_eq.
  by destruct (base.am st !! ISD_AS_IAInt ia).
Qed.

(** X6. [AddIA] is all or nothing, whatever the identifier and the state.
    When it returns an error it returns no entry and the map is the one it
    was.  When it returns no error the identifier is not a wildcard, its
    key holds the entry returned, and every entry that was in the map is
    still there, unchanged. *)
Theorem AddIA_all_or_nothing ia st :
  let '((ae, err), st') := base.AddIA ia st in
  match err with
  | Some _ => ae = None ∧ base.am st' = base.am st
  | None =>
      ¬ base.wildcard ia ∧
      base.am st' !! ISD_AS_IAInt ia = Some ae ∧
      base.am st ⊆ base.am st' ∧
      ∀ key, key ≠ ISD_AS_IAInt ia → base.am st' !! key = base.am st !! key
  end.
Proof.
  destruct (decide (base.wildcard ia)) as [Hw|Hw].
  { by rewrite AddIA_wildcard_eq. }
  rewrite AddIA_concrete_eq by (unfold base.wildcard in Hw; tauto).
  destruct (base.am st !! ISD_AS_IAInt ia) as [ae|] eqn:Hk; [done|].
  destruct (newASEntry ia (base.world st)) as [[ae [e|]] w]; [done|].
  cbn. split_and!; [done|by rewrite lookup_insert_eq|by apply insert_subseteq|].
  intros key Hne. by rewrite lookup_insert_ne.
Qed.

(** X7. For a concrete identifier whose key has no entry, when the factory
    succeeds, [AddIA] calls the factory once, stores the entry it made under
    the key and returns it; the lookup then returns that entry. *)
Theorem AddIA_fresh ia st ae w :
  addr.I ia ≠ 0 → addr.A ia ≠ 0 →
  base.am st !! ISD_AS_IAInt ia = None →
  newASEntry ia (base.world st) = ((ae, None), w) →
  let st' :=
    base.mkState (<[ISD_AS_IAInt ia := ae]> (base.am st)) w
      (base.trace st ++
       [base.EvNewASEntry ia; base.EvStore (ISD_AS_IAInt ia) ae]) in
  base.AddIA ia st = ((ae, None), st') ∧
  base.ASMap_ASEntry ia st' = (ae, st').
Proof.
  intros HI HA Hk Hnew st'. split.
  - by rewrite AddIA_concrete_eq, Hk, Hnew.
  - rewrite ASMap_ASEntry_eq. unfold st'. cbn. by rewrite lookup_insert_eq.
Qed.

(** X8. [DelIA] always leaves the map without the key and with every other
    entry as it was.  With an entry under the key it returns what that
    entry's [Cleanup] returns; with none it returns an error and the whole
    state is untouched.  So when [DelIA] returns no error there was an
    entry and its [Cleanup] succeeded. *)
Theorem DelIA_post ia st :
  let '(err, st') := base.DelIA ia st in
  base.am st' = delete (ISD_AS_IAInt ia) (base.am st) ∧
  match base.am st !! ISD_AS_IAInt ia with
  | Some ae => (err, base.world st') = ASEntry_Cleanup ae (base.world st)
  | None => err ≠ None ∧ st' = st
  end.
Proof.
  rewrite DelIA_eq. destruct (base.am st !! ISD_AS_IAInt ia) as [ae|] eqn:Hk.
  - by destruct (ASEntry_Cleanup ae (base.world st)) as [err w].
  - split_and!; [by rewrite delete_id|done|done].
Qed.

(** X9. [DelIA] undoes [AddIA]: when [AddIA] added an entry for a key that
    had none, [DelIA] of the same identifier cleans up that very entry and
    the map is again the one before the [AddIA]. *)
Theorem AddIA_DelIA ia st ae st1 :
  base.am st !! ISD_AS_IAInt ia = None →
  base.AddIA ia st = ((ae, None), st1) →
  let '(err, st2) := base.DelIA ia st1 in
  base.am st2 = base.am st ∧
  (err, base.world st2) = ASEntry_Cleanup ae (base.world st1).
Proof.
  intros Hk Hadd. pose proof (AddIA_am ia st) as Ham. rewrite Hadd in Ham.
  destruct Ham as [[Hin _]|[_ Ham]]; [congruence|].
  rewrite DelIA_eq, Ham, lookup_insert_eq.
  destruct (ASEntry_Cleanup ae (base.world st1)) as [err w]. cbn.
  by rewrite delete_insert_eq, delete_id.
Qed.

Lemma DelIA_post_am ia st :
  base.am (base.DelIA ia st).2 = delete (ISD_AS_IAInt ia) (base.am st).
Proof.
  rewrite DelIA_eq. destruct (base.am st !! ISD_AS_IAInt ia) as [ae|] eqn:Hk.
  - by destruct (ASEntry_Cleanup ae (base.world st)) as [err w].
  - by rewrite delete_id.
Qed.

(** X10. After [DelIA], whatever it returned, the lookup of the identifier
    gives nil and a second [DelIA] fails with the not-found error and
    changes nothing: an entry is cleaned up once. *)
Theorem DelIA_twice ia st :
  let st1 := (base.DelIA ia st).2 in
  base.ASMap_ASEntry ia st1 = (None, st1) ∧
  ∃ e, base.DelIA ia st1 = (Some e, st1) ∧
       common.Desc e = "DelIA: No entry found".
Proof.
  intros st1.
  assert (base.am st1 !! ISD_AS_IAInt ia = None) as Hk.
  { pose proof (DelIA_post_am ia st) as H. unfold st1. rewrite H.
    apply lookup_delete_eq. }
  split.
  - by rewrite ASMap_ASEntry_eq, Hk.
  - rewrite DelIA_eq, Hk. by eexists.
Qed.

(** X11. Whenever [AddIA] returns no error, the lookup of the same
    identifier in the state it leaves returns the entry [AddIA] returned. *)
Theorem AddIA_then_lookup ia st ae st' :
  base.AddIA ia st = ((ae, None), st') →
  base.ASMap_ASEntry ia st' = (ae, st').
Proof.
  intros Hadd. pose proof (AddIA_am ia st) as Ham. rewrite Hadd in Ham.
  rewrite ASMap_ASEntry_eq.
  destruct Ham as [[Hin ->]|[_ Ham]].
  - by rewrite Hin.
  - by rewrite Ham, lookup_insert_eq.
Qed.

(** ** The two phases *)

Lemma add_one_wildcard id (c : cfgASEntry) st :
  base.wildcard id → base.ao_add (base.add_one (id, c) st).1 ≠ None.
Proof.
  intros Hw. unfold base.add_one, base.bind, base.ret.
  destruct (base.log_Info _ id st) as [[] sta].
  rewrite AddIA_wildcard_eq by done.
  by destruct (base.log_Error _ _ sta) as [[] stb].
Qed.

Lemma for_each_add_one_wildcard (todo : list (addr.ISD_AS * cfgASEntry)) st o :
  o ∈ (base.for_each base.add_one todo st).1 →
  base.wildcard (base.ao_ia o) → base.ao_add o ≠ None.
Proof.
  revert st. induction todo as [|[id c] todo IH]; intros st.
  { by intros ?%elem_of_nil. }
  cbn [base.for_each]. unfold base.bind, base.ret.
  pose proof (add_one_am id c st) as H1.
  pose proof (add_one_wildcard id c st) as H2.
  destruct (base.add_one (id, c) st) as [o' sta]. specialize (IH sta).
  destruct (base.for_each base.add_one todo sta) as [os st']. cbn in *.
  intros [->|Hin]%elem_of_cons; [|by apply IH].
  destruct H1 as [-> _]. done.
Qed.

Lemma addNewIAs_result cfg st :
  (base.addNewIAs cfg st).1 =
  forallb (λ o, base.add_ok o && base.apply_ok o)
          (base.for_each base.add_one (range_map (config.ASes cfg)) st).1.
Proof.
  unfold base.addNewIAs. rewrite addNewIAs_loop_eq.
  destruct (base.for_each base.add_one _ st). cbn. apply andb_true_r.
Qed.

Lemma ReloadConfig_result cfg st :
  (base.ReloadConfig cfg st).1 =
  (base.delOldIAs cfg (base.addNewIAs cfg st).2).1 && (base.addNewIAs cfg st).1.
Proof.
  unfold base.ReloadConfig, base.bind, base.ret.
  destruct (base.addNewIAs cfg st) as [s st1]. cbn [fst snd].
  by destruct (base.delOldIAs cfg st1) as [d st2].
Qed.

(** X12. [addNewIAs] only adds: every entry that was in the map is still
    there, unchanged, and a key that is there now and was not is the key of
    an identifier of cfg that is not a wildcard. *)
Theorem addNewIAs_grows cfg st :
  base.am st ⊆ base.am (base.addNewIAs cfg st).2 ∧
  ∀ key, is_Some (base.am (base.addNewIAs cfg st).2 !! key) →
         is_Some (base.am st !! key) ∨
         ∃ id, is_Some (config.ASes cfg !! id) ∧ ¬ base.wildcard id ∧
               ISD_AS_IAInt id = key.
Proof.
  rewrite addNewIAs_state.
  pose proof (for_each_add_one_am (range_map (config.ASes cfg)) st) as Ham.
  pose proof (for_each_add_one_ia (range_map (config.ASes cfg)) st) as Hia.
  pose proof (for_each_add_one_wildcard (range_map (config.ASes cfg)) st) as Hw.
  destruct (base.for_each base.add_one _ st) as [os st']. cbn in *.
  destruct Ham as (Hmono & Hnew & _). split.
  - apply map_subseteq_spec, Hmono.
  - intros key [Hk|(o & Ho & Hadd & <-)]%Hnew; [by left|]. right.
    exists (base.ao_ia o). split_and!; [|by intros ?%(Hw o Ho)|done].
    apply range_map_keys. rewrite <- Hia. by apply list_elem_of_fmap_2.
Qed.

Lemma sync_Range_keys_shrinks cfg (keys : list addr.IAInt) (s : bool) st :
  base.am (base.sync_Range_keys (base.delOldIAs_visit cfg) keys s st).2 ⊆
  base.am st.
Proof.
  revert s st. induction keys as [|key keys IH]; intros s st; [done|].
  cbn [base.sync_Range_keys]. unfold base.bind at 1. unfold base.read_am at 1.
  destruct (base.am st !! key) as [ae|]; [|by apply IH].
  unfold base.bind at 1. rewrite delOldIAs_visit_eq.
  destruct (base.stale cfg key); [|by apply IH].
  pose proof (del_one_am key st) as Hdel.
  destruct (base.del_one key st) as [o sta]. destruct Hdel as [_ Hdel].
  etrans; [apply IH|]. rewrite Hdel. apply delete_subseteq.
Qed.

(** X13. [delOldIAs] only removes, whatever the packing of addr: every
    entry in the map after it was in the map before it, unchanged.  So the
    map after [ReloadConfig] holds nothing that the addition did not leave. *)
Theorem delOldIAs_shrinks cfg st :
  base.am (base.delOldIAs cfg st).2 ⊆ base.am st ∧
  base.am (base.ReloadConfig cfg st).2 ⊆ base.am (base.addNewIAs cfg st).2.
Proof.
  assert (∀ st0, base.am (base.delOldIAs cfg st0).2 ⊆ base.am st0) as H.
  { intros st0. apply sync_Range_keys_shrinks. }
  split; [apply H|]. rewrite ReloadConfig_state. apply H.
Qed.

(** X14. Where unpacking a key of the map and packing it again gives the
    key back, the map after [delOldIAs] is the map before it restricted to
    the keys whose identifier is in cfg. *)
Theorem delOldIAs_filter cfg st :
  (∀ key, is_Some (base.am st !! key) → ISD_AS_IAInt (IAInt_IA key) = key) →
  base.am (base.delOldIAs cfg st).2 =
  filter (λ kv, base.stale cfg kv.1 = false) (base.am st).
Proof.
  intros Hrt. apply map_eq. intros key. rewrite delOldIAs_am by done.
  unfold base.stale.
  destruct (config.ASes cfg !! IAInt_IA key) as [c|] eqn:Hc.
  - destruct (base.am st !! key) as [v|] eqn:Hk; symmetry.
    + apply map_lookup_filter_Some. split; [done|]. cbn. by rewrite Hc.
    + apply map_lookup_filter_None. by left.
  - symmetry. apply map_lookup_filter_None. right. intros v _. cbn.
    by rewrite Hc.
Qed.

(** ** The pass as a whole *)

Lemma range_map_empty : range_map ∅ = [].
Proof.
  apply Permutation_nil_r. by rewrite range_map_perm, map_to_list_empty.
Qed.

Lemma delOldIAs_no_stale cfg st :
  (∀ key, is_Some (base.am st !! key) → base.stale cfg key = false) →
  base.delOldIAs cfg st = (true, st).
Proof.
  intros Hns.
  assert (base.delOldIAs cfg st =
          base.sync_Range_keys (base.delOldIAs_visit cfg)
            (range_sync (base.am st)) true st) as -> by done.
  generalize true. induction (range_sync (base.am st)) as [|key keys IH];
    intros s; [done|].
  cbn [base.sync_Range_keys]. unfold base.bind at 1. unfold base.read_am at 1.
  destruct (base.am st !! key) as [ae|] eqn:Hk; [|by apply IH].
  unfold base.bind at 1. rewrite delOldIAs_visit_eq, Hns by by rewrite Hk.
  apply IH.
Qed.

Lemma add_one_present id (c : cfgASEntry) st v :
  ¬ base.wildcard id →
  base.am st !! ISD_AS_IAInt id = Some v →
  base.add_one (id, c) st =
  let '(r, w) := ASEntry_ReloadConfig v c (base.world st) in
  (base.mkAddOutcome id None (Some r),
   base.mkState (base.am st) w
     (base.trace st ++ base.reconfigure_events (base.am st) (id, c))).
Proof.
  intros Hw Hk. unfold base.add_one, base.bind, base.log_Info, base.call.
  cbn. rewrite AddIA_concrete_eq by (unfold base.wildcard in Hw; tauto).
  cbn. rewrite Hk. unfold base.ret. cbn.
  destruct (ASEntry_ReloadConfig v c (base.world st)) as [r w].
  unfold base.reconfigure_events. cbn. rewrite Hk.
  by rewrite <- !app_assoc.
Qed.

Lemma for_each_add_one_present (todo : list (addr.ISD_AS * cfgASEntry)) st :
  (∀ p, p ∈ todo →
     ¬ base.wildcard p.1 ∧ is_Some (base.am st !! ISD_AS_IAInt p.1)) →
  base.am (base.for_each base.add_one todo st).2 = base.am st ∧
  base.trace (base.for_each base.add_one todo st).2 =
    base.trace st ++ flat_map (base.reconfigure_events (base.am st)) todo.
Proof.
  revert st. induction todo as [|[id c] todo IH]; intros st Hall.
  { cbn. by rewrite app_nil_r. }
  destruct (Hall (id, c)) as [Hw [v Hk]]; [left|].
  cbn [base.for_each flat_map]. unfold base.bind, base.ret.
  rewrite (add_one_present id c st v Hw Hk).
  destruct (ASEntry_ReloadConfig v c (base.world st)) as [r w].
  set (sta := base.mkState (base.am st) w
                (base.trace st ++ base.reconfigure_events (base.am st) (id, c))).
  assert (base.am sta = base.am st) as Ham by done.
  assert (base.trace sta =
          base.trace st ++ base.reconfigure_events (base.am st) (id, c))
    as Htr by done.
  clearbody sta.
  destruct (IH sta) as [IHam IHtr].
  { intros p Hp. rewrite Ham. apply Hall. by right. }
  destruct (base.for_each base.add_one todo sta) as [os st'].
  cbn [snd] in *. split; [congruence|].
  by rewrite IHtr, Htr, Ham, app_assoc.
Qed.

(** The map after the pass, key by key, where unpacking and packing give
    back the keys of the map and the identifiers of cfg. *)
Lemma ReloadConfig_am cfg st :
  (∀ key, is_Some (base.am st !! key) → ISD_AS_IAInt (IAInt_IA key) = key) →
  (∀ id, is_Some (config.ASes cfg !! id) → IAInt_IA (ISD_AS_IAInt id) = id) →
  ∀ key, base.am (base.ReloadConfig cfg st).2 !! key =
         match config.ASes cfg !! IAInt_IA key with
         | None => None
         | Some _ => base.am (base.addNewIAs cfg st).2 !! key
         end.
Proof.
  intros Hrt Hcfg key. rewrite ReloadConfig_state. apply delOldIAs_am.
  clear key. intros key. rewrite addNewIAs_state.
  pose proof (for_each_add_one_am (range_map (config.ASes cfg)) st) as Ham.
  pose proof (for_each_add_one_ia (range_map (config.ASes cfg)) st) as Hia.
  destruct (base.for_each base.add_one _ st) as [os st1]. cbn in *.
  destruct Ham as (_ & Hnew & _).
  intros [Hk|(o & Ho & _ & <-)]%Hnew; [by apply Hrt|].
  rewrite Hcfg; [done|]. apply range_map_keys. rewrite <- Hia.
  by apply list_elem_of_fmap_2.
Qed.

(** X15. When [ReloadConfig] returns true the registry has converged:
    where unpacking and packing give back the keys of the map and the
    identifiers of cfg, the keys of the map after the pass are the keys of
    the identifiers of cfg, and cfg holds no wildcard. *)
Theorem ReloadConfig_true_converged cfg st :
  (∀ key, is_Some (base.am st !! key) → ISD_AS_IAInt (IAInt_IA key) = key) →
  (∀ id, is_Some (config.ASes cfg !! id) → IAInt_IA (ISD_AS_IAInt id) = id) →
  (base.ReloadConfig cfg st).1 = true →
  dom (base.am (base.ReloadConfig cfg st).2) =
    set_map ISD_AS_IAInt (dom (config.ASes cfg)) ∧
  ∀ id, is_Some (config.ASes cfg !! id) → ¬ base.wildcard id.
Proof.
  intros Hrt Hcfg Hres.
  rewrite ReloadConfig_result in Hres. apply andb_true_iff in Hres as [_ Hs].
  rewrite addNewIAs_result in Hs.
  pose proof (ReloadConfig_am cfg st Hrt Hcfg) as Hfinal.
  rewrite addNewIAs_state in Hfinal.
  pose proof (for_each_add_one_am (range_map (config.ASes cfg)) st) as Ham.
  pose proof (for_each_add_one_ia (range_map (config.ASes cfg)) st) as Hia.
  pose proof (for_each_add_one_wildcard (range_map (config.ASes cfg)) st) as Hw.
  destruct (base.for_each base.add_one _ st) as [os st1]. cbn in *.
  destruct Ham as (_ & Hnew & Hadded).
  assert (∀ o, o ∈ os → base.ao_add o = None) as Hall.
  { intros o Ho%list_elem_of_In. apply (proj1 (forallb_forall _ _) Hs) in Ho.
    apply andb_true_iff in Ho as [Ho _]. unfold base.add_ok in Ho.
    by destruct (base.ao_add o). }
  assert (∀ id, is_Some (config.ASes cfg !! id) →
                ∃ o, o ∈ os ∧ base.ao_ia o = id) as Hcover.
  { intros id Hid%range_map_keys. rewrite <- Hia in Hid.
    apply list_elem_of_fmap in Hid as (o & -> & Ho). by exists o. }
  split.
  - apply set_eq. intros key. rewrite elem_of_dom, elem_of_map, Hfinal. split.
    + destruct (config.ASes cfg !! IAInt_IA key) eqn:Hc; [|by intros [? ?]].
      intros Hk. exists (IAInt_IA key). split; [|apply elem_of_dom; by rewrite Hc].
      apply Hnew in Hk as [Hk|(o & Ho & _ & <-)]; [by rewrite Hrt|].
      destruct (Hcover (IAInt_IA (ISD_AS_IAInt (base.ao_ia o)))) as (o' & _ & _);
        [by rewrite Hc|].
      rewrite Hcfg; [done|]. apply range_map_keys. rewrite <- Hia.
      by apply list_elem_of_fmap_2.
    + intros (id & -> & Hid%elem_of_dom). rewrite Hcfg by done.
      destruct Hid as [c Hc]. rewrite Hc.
      destruct (Hcover id) as (o & Ho & <-); [by rewrite Hc|].
      apply Hadded; [done|]. by apply Hall.
  - intros id (o & Ho & <-)%Hcover Hwild.
    by apply (Hw o Ho Hwild), Hall.
Qed.

(** X16. A wildcard in cfg makes the pass report failure: whatever the
    state and whatever else cfg holds, [ReloadConfig] returns false. *)
Theorem ReloadConfig_wildcard_fails cfg st id :
  is_Some (config.ASes cfg !! id) →
  base.wildcard id →
  (base.ReloadConfig cfg st).1 = false.
Proof.
  intros Hid Hwild. rewrite ReloadConfig_result, addNewIAs_result.
  pose proof (for_each_add_one_ia (range_map (config.ASes cfg)) st) as Hia.
  pose proof (for_each_add_one_wildcard (range_map (config.ASes cfg)) st) as Hw.
  destruct (base.for_each base.add_one _ st) as [os st1]. cbn [fst] in *.
  apply range_map_keys in Hid. rewrite <- Hia in Hid.
  apply list_elem_of_fmap in Hid as (o & -> & Ho).
  destruct (forallb _ os) eqn:Hall; [|apply andb_false_r].
  apply list_elem_of_In in Ho as Ho'.
  apply (proj1 (forallb_forall _ _) Hall) in Ho'.
  apply andb_true_iff in Ho' as [Hok _]. unfold base.add_ok in Hok.
  specialize (Hw o Ho Hwild). by destruct (base.ao_add o).
Qed.

(** X17. A pass over a registry that already matches cfg changes no entry
    and creates and cleans up nothing: when every identifier of cfg is
    concrete and has its entry, and every key of the map unpacks to an
    identifier of cfg, the map after [ReloadConfig] is the map before it and
    the trace grows by the log lines and the calls of the entries'
    [ReloadConfig] only, one per pair of cfg. *)
Theorem ReloadConfig_stable cfg st :
  (∀ id, is_Some (config.ASes cfg !! id) →
         ¬ base.wildcard id ∧ is_Some (base.am st !! ISD_AS_IAInt id)) →
  (∀ key, is_Some (base.am st !! key) →
          is_Some (config.ASes cfg !! IAInt_IA key)) →
  base.am (base.ReloadConfig cfg st).2 = base.am st ∧
  base.trace (base.ReloadConfig cfg st).2 =
    base.trace st ++
    flat_map (base.reconfigure_events (base.am st))
             (range_map (config.ASes cfg)) ∧
  (base.ReloadConfig cfg st).1 = (base.addNewIAs cfg st).1.
Proof.
  intros Hcfg Hkeys.
  rewrite ReloadConfig_result, ReloadConfig_state, addNewIAs_state.
  destruct (for_each_add_one_present (range_map (config.ASes cfg)) st)
    as [Ham Htr].
  { intros [id c] Hp. apply Hcfg, range_map_keys.
    by apply (list_elem_of_fmap_2 fst) in Hp. }
  rewrite delOldIAs_no_stale; [done|].
  intros key Hk. rewrite Ham in Hk. apply Hkeys in Hk as [c Hc].
  unfold base.stale. by rewrite Hc.
Qed.

(** X18. The empty cases.  With no identifier in cfg [addNewIAs] returns
    true and changes nothing; on a map without entries, as [newASMap] makes
    it, [delOldIAs] returns true and changes nothing; with both
    [ReloadConfig] returns true and changes nothing. *)
Theorem ReloadConfig_empty cfg st :
  (config.ASes cfg = ∅ → base.addNewIAs cfg st = (true, st)) ∧
  (base.am st = base.newASMap → base.delOldIAs cfg st = (true, st)) ∧
  (config.ASes cfg = ∅ → base.am st = base.newASMap →
   base.ReloadConfig cfg st = (true, st)).
Proof.
  assert (config.ASes cfg = ∅ → base.addNewIAs cfg st = (true, st)) as Hadd.
  { intros Hc. unfold base.addNewIAs. by rewrite Hc, range_map_empty. }
  assert (base.am st = base.newASMap → base.delOldIAs cfg st = (true, st))
    as Hdel.
  { intros Hm. apply delOldIAs_no_stale. intros key. rewrite Hm.
    unfold base.newASMap. rewrite lookup_empty. by intros [? ?]. }
  split_and!; [done|done|]. intros Hc Hm.
  unfold base.ReloadConfig, base.bind, base.ret. by rewrite Hadd, Hdel.
Qed.

(** X19. A pass with an empty cfg clears the registry: where unpacking a
    key of the map and packing it again gives the key back, no entry is
    left after [ReloadConfig], and what it returns is what the deletion
    returns. *)
Theorem ReloadConfig_empty_cfg_clears cfg st :
  config.ASes cfg = ∅ →
  (∀ key, is_Some (base.am st !! key) → ISD_AS_IAInt (IAInt_IA key) = key) →
  base.am (base.ReloadConfig cfg st).2 = ∅ ∧
  (base.ReloadConfig cfg st).1 = (base.delOldIAs cfg st).1.
Proof.
  intros Hc Hrt.
  assert (base.addNewIAs cfg st = (true, st)) as Hadd.
  { unfold base.addNewIAs. by rewrite Hc, range_map_empty. }
  rewrite ReloadConfig_result, ReloadConfig_state, Hadd. cbn [fst snd].
  split; [|apply andb_true_r].
  apply map_empty. intros key. rewrite delOldIAs_am by done.
  by rewrite Hc, lookup_empty.
Qed.

(** After a pass that returned true the registry matches cfg. *)
Lemma ReloadConfig_true_matches cfg st :
  (∀ key, is_Some (base.am st !! key) → ISD_AS_IAInt (IAInt_IA key) = key) →
  (∀ id, is_Some (config.ASes cfg !! id) → IAInt_IA (ISD_AS_IAInt id) = id) →
  (base.ReloadConfig cfg st).1 = true →
  (∀ id, is_Some (config.ASes cfg !! id) →
     ¬ base.wildcard id ∧
     is_Some (base.am (base.ReloadConfig cfg st).2 !! ISD_AS_IAInt id)) ∧
  (∀ key, is_Some (base.am (base.ReloadConfig cfg st).2 !! key) →
     is_Some (config.ASes cfg !! IAInt_IA key)).
Proof.
  intros Hrt Hcfg Hres.
  rewrite ReloadConfig_result in Hres. apply andb_true_iff in Hres as [_ Hs].
  rewrite addNewIAs_result in Hs.
  pose proof (ReloadConfig_am cfg st Hrt Hcfg) as Hfinal.
  rewrite addNewIAs_state in Hfinal.
  pose proof (for_each_add_one_am (range_map (config.ASes cfg)) st) as Ham.
  pose proof (for_each_add_one_ia (range_map (config.ASes cfg)) st) as Hia.
  pose proof (for_each_add_one_wildcard (range_map (config.ASes cfg)) st) as Hw.
  destruct (base.for_each base.add_one _ st) as [os st1]. cbn in *.
  destruct Ham as (_ & _ & Hadded).
  assert (∀ o, o ∈ os → base.ao_add o = None) as Hall.
  { intros o Ho%list_elem_of_In. apply (proj1 (forallb_forall _ _) Hs) in Ho.
    apply andb_true_iff in Ho as [Ho _]. unfold base.add_ok in Ho.
    by destruct (base.ao_add o). }
  split.
  - intros id Hid. pose proof Hid as Hin%range_map_keys. rewrite <- Hia in Hin.
    apply list_elem_of_fmap in Hin as (o & -> & Ho). split.
    + intros Hwild. by apply (Hw o Ho Hwild), Hall.
    + rewrite Hfinal, Hcfg by done. destruct Hid as [c ->].
      apply Hadded; [done|]. by apply Hall.
  - intros key. rewrite Hfinal.
    destruct (config.ASes cfg !! IAInt_IA key); [by eexists|by intros [? ?]].
Qed.

(** X20. A pass that returned true need not be repeated: where unpacking
    and packing give back the keys of the map and the identifiers of cfg, a
    second [ReloadConfig] with the same cfg leaves the map as the first
    left it, and creates and cleans up nothing: it adds to the trace the
    log lines and the calls of the entries' [ReloadConfig] only. *)
Theorem ReloadConfig_twice cfg st :
  (∀ key, is_Some (base.am st !! key) → ISD_AS_IAInt (IAInt_IA key) = key) →
  (∀ id, is_Some (config.ASes cfg !! id) → IAInt_IA (ISD_AS_IAInt id) = id) →
  (base.ReloadConfig cfg st).1 = true →
  let st' := (base.ReloadConfig cfg st).2 in
  base.am (base.ReloadConfig cfg st').2 = base.am st' ∧
  base.trace (base.ReloadConfig cfg st').2 =
    base.trace st' ++
    flat_map (base.reconfigure_events (base.am st'))
             (range_map (config.ASes cfg)).
Proof.
  intros Hrt Hcfg Hres st'.
  destruct (ReloadConfig_true_matches cfg st Hrt Hcfg Hres) as [Hids Hkeys].
  fold st' in Hids, Hkeys.
  rewrite ReloadConfig_state, addNewIAs_state.
  destruct (for_each_add_one_present (range_map (config.ASes cfg)) st')
    as [Ham Htr].
  { intros [id c] Hp. apply Hids, range_map_keys.
    by apply (list_elem_of_fmap_2 fst) in Hp. }
  rewrite delOldIAs_no_stale; [done|].
  intros key Hk. rewrite Ham in Hk. apply Hkeys in Hk as [c Hc].
  unfold base.stale. by rewrite Hc.
Qed.

(** ** Who is created and who is cleaned up *)

Lemma add_one_trace id (c : cfgASEntry) st :
  ∃ t, base.trace (base.add_one (id, c) st).2 = base.trace st ++ t ∧
       base.cleaned_up t = [] ∧
       (base.created t = [] ∨
        (base.created t = [id] ∧ ¬ base.wildcard id ∧
         base.am st !! ISD_AS_IAInt id = None)).
Proof.
  unfold base.add_one, base.bind, base.log_Info, base.call. cbn.
  destruct (decide (base.wildcard id)) as [Hw|Hw].
  { rewrite AddIA_wildcard_eq by done. cbn. rewrite <- app_assoc.
    eexists. split; [done|]. split; [done|]. by left. }
  rewrite AddIA_concrete_eq by (unfold base.wildcard in Hw; tauto). cbn.
  destruct (base.am st !! ISD_AS_IAInt id) as [v|] eqn:Hk.
  { unfold base.ret. cbn.
    destruct (ASEntry_ReloadConfig v c (base.world st)) as [r w]. cbn.
    rewrite <- !app_assoc. eexists. split; [done|]. split; [done|]. by left. }
  destruct (newASEntry id (base.world st)) as [[ae [e|]] w]; cbn.
  - rewrite <- !app_assoc. eexists. split; [done|]. split; [done|]. by right.
  - unfold base.ret. cbn. destruct (ASEntry_ReloadConfig ae c w) as [r w'].
    cbn. rewrite <- !app_assoc. eexists. split; [done|]. split; [done|].
    by right.
Qed.

(** X21. [addNewIAs] cleans up nothing, and it calls the factory at most
    once for an identifier, only for identifiers of cfg, and only for those
    that are concrete and whose key had no entry. *)
Theorem addNewIAs_creates cfg st :
  ∃ t, base.trace (base.addNewIAs cfg st).2 = base.trace st ++ t ∧
       base.cleaned_up t = [] ∧
       NoDup (base.created t) ∧
       ∀ id, id ∈ base.created t →
             is_Some (config.ASes cfg !! id) ∧ ¬ base.wildcard id ∧
             base.am st !! ISD_AS_IAInt id = None.
Proof.
  rewrite addNewIAs_state.
  destruct (range_map_keys (config.ASes cfg)) as [Hnd Hin].
  assert (∃ t, base.trace (base.for_each base.add_one
                             (range_map (config.ASes cfg)) st).2 =
               base.trace st ++ t ∧
               base.cleaned_up t = [] ∧
               base.created t `sublist_of` (range_map (config.ASes cfg)).*1 ∧
               ∀ id, id ∈ base.created t →
                     ¬ base.wildcard id ∧
                     base.am st !! ISD_AS_IAInt id = None)
    as (t & Ht & Hclean & Hsub & Hnew).
  { clear Hnd Hin. generalize (range_map (config.ASes cfg)). intros todo.
    revert st. induction todo as [|[id c] todo IH]; intros st.
    { exists []. cbn. rewrite app_nil_r. split_and!; [done|done|constructor|].
      by intros id ?%elem_of_nil. }
    cbn [base.for_each]. unfold base.bind, base.ret.
    destruct (add_one_trace id c st) as (t1 & Ht1 & Hc1 & Hn1).
    pose proof (add_one_am id c st) as Ham.
    destruct (base.add_one (id, c) st) as [o sta]. cbn [snd] in Ht1.
    assert (∀ key, base.am st !! key = None ∨ base.am sta !! key ≠ None)
      as Hmono.
    { intros key. destruct (base.am st !! key) as [v|] eqn:Hk; [right|by left].
      destruct Ham as [_ Ham]. destruct (base.ao_add o).
      - destruct Ham as [_ ->]. by rewrite Hk.
      - destruct Ham as [_ [[_ ->]|[Hn [ae ->]]]]; [by rewrite Hk|].
        rewrite lookup_insert_ne by congruence. by rewrite Hk. }
    destruct (IH sta) as (t2 & Ht2 & Hc2 & Hs2 & Hn2).
    destruct (base.for_each base.add_one todo sta) as [os st']. cbn [snd] in *.
    exists (t1 ++ t2). unfold base.cleaned_up, base.created in *.
    rewrite !flat_map_app, Hc1, Hc2, Ht2, Ht1, app_assoc.
    split_and!; [done|done| |].
    - destruct Hn1 as [->|[-> _]]; [by apply sublist_cons|by apply sublist_skip].
    - intros id' [Hid|Hid]%elem_of_app.
      + destruct Hn1 as [Hn1|(Hn1 & ? & ?)]; rewrite Hn1 in Hid.
        * by apply elem_of_nil in Hid.
        * by apply list_elem_of_singleton in Hid as ->.
      + destruct (Hn2 id' Hid) as [? Hk]. split; [done|].
        by destruct (Hmono (ISD_AS_IAInt id')). }
  exists t. split_and!; [done|done|by eapply sublist_NoDup|].
  intros id Hid. destruct (Hnew id Hid) as [? ?]. split_and!; [|done|done].
  apply Hin. by eapply elem_of_sublist.
Qed.

Lemma del_one_trace key st :
  ∃ t, base.trace (base.del_one key st).2 = base.trace st ++ t ∧
       base.created t = [] ∧
       base.cleaned_up t =
         match base.am st !! ISD_AS_IAInt (IAInt_IA key) with
         | Some v => [v]
         | None => []
         end.
Proof.
  unfold base.del_one, base.bind, base.log_Info, base.call. cbn.
  rewrite DelIA_eq. cbn.
  destruct (base.am st !! ISD_AS_IAInt (IAInt_IA key)) as [v|]; cbn.
  - destruct (ASEntry_Cleanup v (base.world st)) as [[e|] w]; cbn;
      rewrite <- !app_assoc; by eexists.
  - rewrite <- !app_assoc. by eexists.
Qed.

Lemma for_each_del_one_trace (keys : list addr.IAInt)
    (m : gmap addr.IAInt (option ASEntry)) st :
  NoDup keys →
  (∀ key, key ∈ keys →
     ISD_AS_IAInt (IAInt_IA key) = key ∧ base.am st !! key = m !! key) →
  ∃ t, base.trace (base.for_each base.del_one keys st).2 = base.trace st ++ t ∧
       base.created t = [] ∧
       base.cleaned_up t = omap (λ key, m !! key) keys.
Proof.
  revert st. induction keys as [|key keys IH]; intros st Hnd Hkeys.
  { exists []. cbn. by rewrite app_nil_r. }
  apply NoDup_cons in Hnd as [Hnotin Hnd].
  destruct (Hkeys key) as [Hrt Hm]; [left|].
  cbn [base.for_each]. unfold base.bind, base.ret.
  destruct (del_one_trace key st) as (t1 & Ht1 & Hn1 & Hc1).
  pose proof (del_one_am key st) as Hdel.
  destruct (base.del_one key st) as [o sta]. destruct Hdel as [_ Hdel].
  rewrite Hrt in Hdel, Hc1. rewrite Hm in Hc1. cbn [snd] in Ht1.
  destruct (IH sta Hnd) as (t2 & Ht2 & Hn2 & Hc2).
  { intros key' Hin. destruct (Hkeys key') as [? <-]; [by right|].
    split; [done|]. rewrite Hdel. apply lookup_delete_ne. by intros ->. }
  destruct (base.for_each base.del_one keys sta) as [os st']. cbn [snd] in *.
  exists (t1 ++ t2). unfold base.cleaned_up, base.created in *.
  rewrite !flat_map_app, Hn1, Hn2, Hc1, Hc2, Ht2, Ht1, app_assoc.
  split_and!; [done|done|]. cbn. by destruct (m !! key).
Qed.

(** X22. Where unpacking a key of the map and packing it again gives the
    key back, [delOldIAs] calls the factory for nobody and cleans up the
    entries of the stale keys, those in the map whose identifier is absent
    from cfg, each once, in the order of the walk, and no other entry. *)
Theorem delOldIAs_cleans_up cfg st :
  (∀ key, is_Some (base.am st !! key) → ISD_AS_IAInt (IAInt_IA key) = key) →
  ∃ t, base.trace (base.delOldIAs cfg st).2 = base.trace st ++ t ∧
       base.created t = [] ∧
       base.cleaned_up t =
         omap (λ key, base.am st !! key) (base.stale_keys cfg (base.am st)) ∧
       length (base.cleaned_up t) =
         length (base.stale_keys cfg (base.am st)).
Proof.
  intros Hrt. rewrite delOldIAs_eq by done.
  destruct (for_each_del_one_trace (base.stale_keys cfg (base.am st))
              (base.am st) st) as (t & Ht & Hn & Hc).
  { unfold base.stale_keys. apply NoDup_ListNoDup, List.NoDup_filter.
    apply NoDup_ListNoDup, range_sync_keys. }
  { intros key [Hk _]%stale_keys_spec. split; [by apply Hrt|done]. }
  destruct (base.for_each base.del_one _ st) as [os st']. cbn [snd] in *.
  exists t. split_and!; [done|done|done|]. rewrite Hc.
  assert (∀ key, key ∈ base.stale_keys cfg (base.am st) →
                 is_Some (base.am st !! key)) as Hin.
  { by intros key [Hk _]%stale_keys_spec. }
  clear Ht Hn Hc. revert Hin.
  generalize (base.stale_keys cfg (base.am st)). intros keys.
  induction keys as [|key keys IH]; intros Hin; [done|].
  cbn. destruct (Hin key) as [v ->]; [left|]. cbn. f_equal.
  apply IH. intros key' Hk'. apply Hin. by right.
Qed.

End composition.

(** * The properties on the concrete environment *)

Section instances.

Lemma pack_unpack (key : addr.IAInt) : demo.pack (demo.unpack key) = key.
Proof.
  unfold demo.pack, demo.unpack. cbn [addr.I addr.A].
  rewrite <- Z.land_assoc, Z.land_diag, <- Z.ldiff_ones_r by lia.
  apply Z.lor_ldiff_and.
Qed.

Lemma unpack_pack_cfg (l : list (addr.ISD_AS * bool)) :
  Forall (λ p, demo.unpack (demo.pack p.1) = p.1) l →
  ∀ id, is_Some (config.ASes (demo.cfg_of l) !! id) →
        demo.unpack (demo.pack id) = id.
Proof.
  intros Hl id [c Hc]. apply elem_of_list_to_map_2 in Hc.
  by apply (proj1 (Forall_forall _ _) Hl _ Hc).
Qed.

Example st2_entries :
  base.am demo.st2 !! demo.pack demo.AS1 = Some (Some 0%nat) ∧
  base.am demo.st2 !! demo.pack demo.AS2 = Some (Some 1%nat).
Proof. split; reflexivity. Qed.

(** AS1 is already in the registry: [AddIA] hands back handle 0. *)
Lemma AddIA_idempotent_witness :
  base.AddIA demo.AS1 demo.st1 = ((Some 0%nat, None), demo.st1) ∧
  (∀ st0 ae1 st1,
     base.AddIA demo.AS1 st0 = ((ae1, None), st1) →
     base.AddIA demo.AS1 st1 = ((ae1, None), st1)).
Proof.
  apply (AddIA_idempotent (Env := demo.env) demo.AS1 demo.st1 (Some 0%nat)).
  - cbn. lia.
  - cbn. lia.
  - reflexivity.
Defined.

(** ISD 0 with AS 5 is a wildcard. *)
Lemma AddIA_wildcard_witness :
  ∃ e, base.AddIA (addr.mkISD_AS 0 5) demo.st2 = ((None, Some e), demo.st2) ∧
       common.Desc e = "AddIA: ISD and AS must not be 0" ∧
       base.kind_of e = base.InvalidIdentifier ∧
       common.CtxIA (addr.mkISD_AS 0 5) ∈ common.Ctx e.
Proof.
  apply (AddIA_wildcard (Env := demo.env) (addr.mkISD_AS 0 5) demo.st2).
  left. reflexivity.
Defined.

(** The factory refuses ISD 13. *)
Lemma AddIA_factory_failure_witness :
  base.AddIA demo.AS13 demo.st2 =
    ((None, Some (demo.err "newASEntry: no TUN device")),
     base.mkState (base.am demo.st2) (base.world demo.st2)
       (base.trace demo.st2 ++ [base.EvNewASEntry demo.AS13])) ∧
  base.am (base.AddIA demo.AS13 demo.st2).2 = base.am demo.st2 ∧
  base.am (base.AddIA demo.AS13 demo.st2).2 !! demo.pack demo.AS13 = None.
Proof.
  apply (AddIA_factory_failure (Env := demo.env) demo.AS13 demo.st2 None).
  - cbn. lia.
  - cbn. lia.
  - reflexivity.
  - reflexivity.
Defined.

(** AS2 holds handle 1, whose cleanup fails: the key is gone all the same. *)
Lemma DelIA_present_witness :
  let '(err, st') := base.DelIA demo.AS2 demo.st2 in
  (err, base.world st') = demo.cleanup (Some 1%nat) (base.world demo.st2) ∧
  base.trace st' =
    base.trace demo.st2 ++
    [base.EvDelete (demo.pack demo.AS2); base.EvCleanup (Some 1%nat)] ∧
  base.am st' = delete (demo.pack demo.AS2) (base.am demo.st2) ∧
  base.am st' !! demo.pack demo.AS2 = None.
Proof.
  apply (DelIA_present (Env := demo.env) demo.AS2 demo.st2 (Some 1%nat)).
  reflexivity.
Defined.

(** AS3 is not in the registry. *)
Lemma DelIA_absent_witness :
  ∃ e, base.DelIA demo.AS3 demo.st2 = (Some e, demo.st2) ∧
       common.Desc e = "DelIA: No entry found" ∧
       base.kind_of e = base.NotFound ∧
       common.CtxIA demo.AS3 ∈ common.Ctx e.
Proof.
  apply (DelIA_absent (Env := demo.env) demo.AS3 demo.st2).
  reflexivity.
Defined.

(** The wildcard 0-0 on the empty registry. *)
Lemma DelIA_wildcard_witness :
  ∃ e, base.DelIA (addr.mkISD_AS 0 0) demo.st0 = (Some e, demo.st0) ∧
       common.Desc e = "DelIA: No entry found" ∧
       base.kind_of e = base.NotFound ∧
       common.CtxIA (addr.mkISD_AS 0 0) ∈ common.Ctx e.
Proof.
  apply (DelIA_wildcard (Env := demo.env) (addr.mkISD_AS 0 0) demo.st0).
  left. reflexivity.
Defined.

(** C9 fails on the code: for the wildcard 0-0 and the empty registry
    [DelIA] returns the error of a missing entry, not that of an invalid
    identifier. *)
Lemma DelIA_wildcard_counterexample :
  ¬ (∀ (ia : addr.ISD_AS) (st : base.State),
       base.wildcard ia →
       ∃ e, (base.DelIA ia st).1 = Some e ∧
            base.kind_of e = base.InvalidIdentifier).
Proof.
  intros Hclaim.
  destruct (Hclaim (addr.mkISD_AS 0 0) demo.st0) as (e & He & Hkind).
  { left. reflexivity. }
  rewrite (DelIA_eq (Env := demo.env)) in He.
  change (base.am demo.st0) with (∅ : gmap addr.IAInt (option nat)) in He.
  rewrite lookup_empty in He. injection He as <-. discriminate Hkind.
Qed.

(** AS1 is in the registry and cfg asks for AS13 only, in vain: the
    addition reports a failure and AS1 is gone after the pass. *)
Lemma ReloadConfig_both_phases_witness :
  let cfg := demo.cfg_of [(demo.AS13, true)] in
  (base.addNewIAs cfg demo.st1).1 = false ∧
  base.am demo.st1 !! demo.pack demo.AS1 = Some (Some 0%nat) ∧
  base.am (base.ReloadConfig cfg demo.st1).2 !! demo.pack demo.AS1 = None.
Proof.
  intros cfg. split; [by vm_compute|]. split; [by vm_compute|].
  pose proof (ReloadConfig_both_phases (Env := demo.env) cfg demo.st1) as H.
  destruct (base.addNewIAs cfg demo.st1) as [s sta].
  destruct (base.delOldIAs cfg sta) as [d stb].
  destruct H as [-> H]. cbn [snd]. apply H.
  - intros key _. apply pack_unpack.
  - by vm_compute.
Defined.

(** AS1 and AS2 are in the registry; cfg asks for AS2, AS3 and, in vain,
    AS13. *)
Lemma ReloadConfig_phases_witness :
  let cfg := demo.cfg_of [(demo.AS2, true); (demo.AS3, false); (demo.AS13, true)] in
  let st := demo.st2 in
  (let '((s, os), st') := base.addition_phase cfg st in
   base.addNewIAs cfg st = (s, st') ∧
   s = forallb (λ o, base.add_ok o && base.apply_ok o) os ∧
   base.ao_ia <$> os ≡ₚ (map_to_list (config.ASes cfg)).*1 ∧
   ∀ o, o ∈ os →
     if base.add_ok o then is_Some (base.ao_apply o)
     else base.ao_apply o = None) ∧
  (let '((d, os), st') := base.deletion_phase cfg st in
   base.delOldIAs cfg st = (d, st') ∧
   d = forallb base.remove_ok os ∧
   NoDup os.*1 ∧
   ∀ key, key ∈ os.*1 ↔
          is_Some (base.am st !! key) ∧
          config.ASes cfg !! demo.unpack key = None).
Proof.
  intros cfg st.
  apply (ReloadConfig_phases (Env := demo.env) cfg st).
  intros key _. apply pack_unpack.
Defined.

(** Two passes over the registry of AS1 (handle 0) and AS2 (handle 1).
    With cfg = AS1, AS3 every Add succeeds and the Remove of AS2 fails in
    [Cleanup]: the keys after the pass are those of AS1 and AS3, AS1 keeps
    handle 0, and AS2, there before, is gone.  With cfg = AS2, AS3, AS13
    the Add of AS13 fails: its key holds after the pass what it held
    before, nothing. *)
Lemma ReloadConfig_converges_witness :
  let cfgA := demo.cfg_of [(demo.AS1, true); (demo.AS3, true)] in
  let cfgB :=
    demo.cfg_of [(demo.AS2, true); (demo.AS3, false); (demo.AS13, true)] in
  let stA := (base.ReloadConfig cfgA demo.st2).2 in
  let stB := (base.ReloadConfig cfgB demo.st2).2 in
  ((base.addition_phase cfgA demo.st2).1.2 =
     [base.mkAddOutcome demo.AS1 None (Some true);
      base.mkAddOutcome demo.AS3 None (Some true)] ∧
   (base.deletion_phase cfgA (base.addNewIAs cfgA demo.st2).2).1.2 =
     [(demo.pack demo.AS2, Some (demo.err "Error removing TUN link"))] ∧
   dom (base.am stA) = set_map demo.pack (dom (config.ASes cfgA)) ∧
   base.am stA !! demo.pack demo.AS1 = Some (Some 0%nat) ∧
   base.am demo.st2 !! demo.pack demo.AS2 = Some (Some 1%nat) ∧
   base.am stA !! demo.pack demo.AS2 = None) ∧
  (base.mkAddOutcome demo.AS13
     (Some (demo.err "newASEntry: no TUN device")) None
     ∈ (base.addition_phase cfgB demo.st2).1.2 ∧
   base.am demo.st2 !! demo.pack demo.AS13 = None ∧
   base.am stB !! demo.pack demo.AS13 = base.am demo.st2 !! demo.pack demo.AS13).
Proof.
  intros cfgA cfgB stA stB.
  assert (∀ key, is_Some (base.am demo.st2 !! key) →
                 demo.pack (demo.unpack key) = key) as Hrt
    by (intros key _; apply pack_unpack).
  assert ((base.addition_phase cfgA demo.st2).1.2 =
            [base.mkAddOutcome demo.AS1 None (Some true);
             base.mkAddOutcome demo.AS3 None (Some true)]) as HosA
    by reflexivity.
  assert ((base.deletion_phase cfgA (base.addNewIAs cfgA demo.st2).2).1.2 =
            [(demo.pack demo.AS2, Some (demo.err "Error removing TUN link"))])
    as HdsA by (vm_compute; reflexivity).
  assert (base.mkAddOutcome demo.AS13
            (Some (demo.err "newASEntry: no TUN device")) None
            ∈ (base.addition_phase cfgB demo.st2).1.2) as HosB.
  { change (base.mkAddOutcome demo.AS13
              (Some (demo.err "newASEntry: no TUN device")) None
            ∈ [base.mkAddOutcome demo.AS13
                 (Some (demo.err "newASEntry: no TUN device")) None;
               base.mkAddOutcome demo.AS2 None (Some true);
               base.mkAddOutcome demo.AS3 None (Some false)]).
    left. }
  assert (∀ id, is_Some (config.ASes cfgA !! id) →
                demo.unpack (demo.pack id) = id) as HcfgA
    by (apply unpack_pack_cfg; repeat constructor).
  assert (∀ id, is_Some (config.ASes cfgB !! id) →
                demo.unpack (demo.pack id) = id) as HcfgB
    by (apply unpack_pack_cfg; repeat constructor).
  pose proof (ReloadConfig_converges (Env := demo.env) cfgA demo.st2 Hrt HcfgA)
    as HA.
  pose proof (ReloadConfig_converges (Env := demo.env) cfgB demo.st2 Hrt HcfgB)
    as HB.
  cbv zeta in HA, HB.
  destruct HA as (Hdom & _ & Hkeep & _ & Hrem).
  destruct HB as (_ & Hfail & _).
  split; [split_and!|split_and!].
  - exact HosA.
  - exact HdsA.
  - apply Hdom. intros o Ho. rewrite HosA in Ho.
    apply elem_of_cons in Ho as [->|Ho]; [done|].
    apply elem_of_cons in Ho as [->|Ho]; [done|].
    exfalso. exact (not_elem_of_nil _ Ho).
  - apply Hkeep; [reflexivity|]. exists true. reflexivity.
  - reflexivity.
  - apply (Hrem (demo.pack demo.AS2) (demo.err "Error removing TUN link")).
    rewrite HdsA. left.
  - exact HosB.
  - reflexivity.
  - apply (Hfail _ HosB). discriminate.
Defined.

(** C2 fails on the code where it speaks of a failed Remove.  AS1 and AS2
    are in the registry and cfg asks for AS1 only.  The Remove of AS2
    fails, in [Cleanup], and the key of AS2, which held handle 1 before the
    pass, is absent after it. *)
Lemma ReloadConfig_failed_Remove_counterexample :
  ¬ (∀ (cfg : config.Cfg) (st : base.State) key e,
       (key, Some e) ∈ (base.deletion_phase cfg (base.addNewIAs cfg st).2).1.2 →
       base.am (base.ReloadConfig cfg st).2 !! key = base.am st !! key).
Proof.
  intros Hclaim.
  specialize (Hclaim (demo.cfg_of [(demo.AS1, true)]) demo.st2
                (demo.pack demo.AS2) (demo.err "Error removing TUN link")).
  assert ((base.deletion_phase (demo.cfg_of [(demo.AS1, true)])
             (base.addNewIAs (demo.cfg_of [(demo.AS1, true)]) demo.st2).2).1.2 =
          [(demo.pack demo.AS2, Some (demo.err "Error removing TUN link"))])
    as Hds by (vm_compute; reflexivity).
  rewrite Hds in Hclaim. specialize (Hclaim ltac:(left)).
  vm_compute in Hclaim. discriminate Hclaim.
Qed.

(** The round trip of cfg's identifiers is needed for the convergence.
    AS number 1048581 does not fit the 20 bits the key gives it: 1-1048581
    packs into the key of 1-5.  Its Add succeeds and the pass returns
    true, but the sweep unpacks the key to 1-5, does not find that in cfg
    and removes the entry again. *)
Example scenario_identifier_does_not_round_trip :
  let id := addr.mkISD_AS 1 1048581 in
  let cfg := demo.cfg_of [(id, true)] in
  demo.unpack (demo.pack id) = addr.mkISD_AS 1 5 ∧
  (base.ReloadConfig cfg demo.st0).1 = true ∧
  base.am (base.addNewIAs cfg demo.st0).2 !! demo.pack id =
    Some (Some 0%nat) ∧
  base.am (base.ReloadConfig cfg demo.st0).2 = ∅.
Proof.
  intros id cfg. split; [by vm_compute|]. split; [by vm_compute|].
  split; by vm_compute.
Qed.

(** ** The scenarios of the design *)

(** cfg = AS1, AS2 and an empty registry: true, and both are there. *)
Example scenario_fresh :
  let r := base.ReloadConfig
             (demo.cfg_of [(demo.AS1, true); (demo.AS2, true)]) demo.st0 in
  r.1 = true ∧
  dom (base.am r.2) = {[demo.pack demo.AS1; demo.pack demo.AS2]}.
Proof. split; vm_compute; reflexivity. Qed.

(** The registry holds AS1, AS2 and cfg = AS2, AS3: AS1 is removed and its
    handle released, AS3 is added, AS2 keeps its entry. *)
Example scenario_diff :
  let r := base.ReloadConfig
             (demo.cfg_of [(demo.AS2, true); (demo.AS3, true)]) demo.st2 in
  base.am r.2 =
    {[demo.pack demo.AS2 := Some 1%nat; demo.pack demo.AS3 := Some 2%nat]} ∧
  demo.released (base.world r.2) = [0%nat].
Proof. split; vm_compute; reflexivity. Qed.

(** cfg = AS13, for which the factory fails: false, the registry stays
    empty. *)
Example scenario_factory_fails :
  let r := base.ReloadConfig (demo.cfg_of [(demo.AS13, true)]) demo.st0 in
  r.1 = false ∧ base.am r.2 = ∅.
Proof. split; vm_compute; reflexivity. Qed.

(** The addition fails for AS13 and the stale AS1 is removed all the same. *)
Example scenario_no_short_circuit :
  let cfg := demo.cfg_of [(demo.AS13, true)] in
  (base.addNewIAs cfg demo.st1).1 = false ∧
  base.am demo.st1 !! demo.pack demo.AS1 = Some (Some 0%nat) ∧
  base.am (base.ReloadConfig cfg demo.st1).2 !! demo.pack demo.AS1 = None ∧
  base.trace (base.ReloadConfig cfg demo.st1).2 =
    base.trace demo.st1 ++
    [base.EvLogInfo "ReloadConfig: Adding AS..." demo.AS13;
     base.EvNewASEntry demo.AS13;
     base.EvLogError "newASEntry: no TUN device" [];
     base.EvLogInfo "ReloadConfig: Deleting AS..." demo.AS1;
     base.EvDelete (demo.pack demo.AS1);
     base.EvCleanup (Some 0%nat);
     base.EvLogInfo "ReloadConfig: Deleted AS" demo.AS1].
Proof.
  intros cfg. split; [by vm_compute|]. split; [by vm_compute|].
  split; [by vm_compute|reflexivity].
Qed.

End instances.

(** * The accessors and compositions on the concrete environment *)

Section more_instances.

Lemma cfg_of_ids (P : addr.ISD_AS → Prop) (l : list (addr.ISD_AS * bool)) :
  Forall (λ p, P p.1) l →
  ∀ id, is_Some (config.ASes (demo.cfg_of l) !! id) → P id.
Proof.
  intros Hl id [c Hc]. apply elem_of_list_to_map_2 in Hc.
  by apply (proj1 (Forall_forall _ _) Hl _ Hc).
Qed.

Lemma st2_keys (P : addr.IAInt → Prop) :
  P (demo.pack demo.AS1) → P (demo.pack demo.AS2) →
  ∀ key, is_Some (base.am demo.st2 !! key) → P key.
Proof.
  intros H1 H2 key [v Hv]. apply elem_of_map_to_list in Hv.
  apply (list_elem_of_fmap_2 fst) in Hv.
  assert ((map_to_list (base.am demo.st2)).*1 =
          [demo.pack demo.AS1; demo.pack demo.AS2]) as Hkeys
    by (vm_compute; reflexivity).
  rewrite Hkeys in Hv. cbn [fst] in Hv.
  apply elem_of_cons in Hv as [->|Hv]; [done|].
  apply elem_of_cons in Hv as [->|Hv]; [done|].
  exfalso. exact (not_elem_of_nil _ Hv).
Qed.

(** A visitor that notes the key and stops, on the registry of AS1 and
    AS2. *)
Lemma Range_stops_witness :
  let f := λ (k : addr.IAInt) (v : option nat) (a : list addr.IAInt),
             base.ret (Env := demo.env) (false, k :: a) in
  (base.am demo.st2 = ∅ → base.Range f [] demo.st2 = ([], demo.st2)) ∧
  (base.am demo.st2 ≠ ∅ →
   ∃ k v, base.am demo.st2 !! k = Some v ∧
          base.Range f [] demo.st2 =
          ((f k v [] demo.st2).1.2, (f k v [] demo.st2).2)).
Proof.
  intros f. apply (Range_stops (Env := demo.env) f [] demo.st2).
  intros k v a s. reflexivity.
Defined.

(** AS3 is new to the registry of AS1 and AS2 and gets handle 2. *)
Lemma AddIA_fresh_witness :
  let st' :=
    base.mkState (<[demo.pack demo.AS3 := Some 2%nat]> (base.am demo.st2))
      (demo.mkDevices 3 [])
      (base.trace demo.st2 ++
       [base.EvNewASEntry demo.AS3;
        base.EvStore (demo.pack demo.AS3) (Some 2%nat)]) in
  base.AddIA demo.AS3 demo.st2 = ((Some 2%nat, None), st') ∧
  base.ASMap_ASEntry demo.AS3 st' = (Some 2%nat, st').
Proof.
  apply (AddIA_fresh (Env := demo.env) demo.AS3 demo.st2 (Some 2%nat)
           (demo.mkDevices 3 [])).
  - cbn. lia.
  - cbn. lia.
  - reflexivity.
  - reflexivity.
Defined.

(** AS1 added to the empty registry and deleted again. *)
Lemma AddIA_DelIA_witness :
  let '(err, st2) := base.DelIA demo.AS1 demo.st1 in
  base.am st2 = base.am demo.st0 ∧
  (err, base.world st2) = demo.cleanup (Some 0%nat) (base.world demo.st1).
Proof.
  apply (AddIA_DelIA (Env := demo.env) demo.AS1 demo.st0 (Some 0%nat) demo.st1).
  - reflexivity.
  - reflexivity.
Defined.

Lemma AddIA_then_lookup_witness :
  base.ASMap_ASEntry demo.AS1 demo.st1 = (Some 0%nat, demo.st1).
Proof.
  apply (AddIA_then_lookup (Env := demo.env) demo.AS1 demo.st0 (Some 0%nat)
           demo.st1).
  reflexivity.
Defined.

(** The registry of AS1 and AS2 against a cfg of AS1. *)
Lemma delOldIAs_filter_witness :
  let cfg := demo.cfg_of [(demo.AS1, true)] in
  base.am (base.delOldIAs cfg demo.st2).2 =
  filter (λ kv, base.stale cfg kv.1 = false) (base.am demo.st2).
Proof.
  intros cfg. apply (delOldIAs_filter (Env := demo.env) cfg demo.st2).
  intros key _. apply pack_unpack.
Defined.

(** AS1 and AS2 on the empty registry: the pass returns true. *)
Lemma ReloadConfig_true_converged_witness :
  let cfg := demo.cfg_of [(demo.AS1, true); (demo.AS2, true)] in
  dom (base.am (base.ReloadConfig cfg demo.st0).2) =
    set_map demo.pack (dom (config.ASes cfg)) ∧
  ∀ id, is_Some (config.ASes cfg !! id) → ¬ base.wildcard id.
Proof.
  intros cfg.
  apply (ReloadConfig_true_converged (Env := demo.env) cfg demo.st0).
  - intros key _. apply pack_unpack.
  - apply unpack_pack_cfg. repeat constructor.
  - by vm_compute.
Defined.

(** A cfg with the wildcard 0-5 beside AS1. *)
Lemma ReloadConfig_wildcard_fails_witness :
  (base.ReloadConfig
     (demo.cfg_of [(addr.mkISD_AS 0 5, true); (demo.AS1, true)]) demo.st0).1 =
  false.
Proof.
  apply (ReloadConfig_wildcard_fails (Env := demo.env) _ demo.st0
           (addr.mkISD_AS 0 5)).
  - exists true. reflexivity.
  - left. reflexivity.
Defined.

(** The registry of AS1 and AS2 against a cfg of AS1 and AS2. *)
Lemma ReloadConfig_stable_witness :
  let cfg := demo.cfg_of [(demo.AS1, true); (demo.AS2, false)] in
  base.am (base.ReloadConfig cfg demo.st2).2 = base.am demo.st2 ∧
  base.trace (base.ReloadConfig cfg demo.st2).2 =
    base.trace demo.st2 ++
    flat_map (base.reconfigure_events (base.am demo.st2))
             (map_to_list (config.ASes cfg)) ∧
  (base.ReloadConfig cfg demo.st2).1 = (base.addNewIAs cfg demo.st2).1.
Proof.
  intros cfg. apply (ReloadConfig_stable (Env := demo.env) cfg demo.st2).
  - apply (cfg_of_ids (λ id, ¬ base.wildcard id ∧
                             is_Some (base.am demo.st2 !! demo.pack id))).
    repeat apply Forall_cons_2; [| |apply Forall_nil_2].
    + split; [intros [H|H]; discriminate H|]. exists (Some 0%nat). reflexivity.
    + split; [intros [H|H]; discriminate H|]. exists (Some 1%nat). reflexivity.
  - apply (st2_keys (λ key, is_Some (config.ASes cfg !! demo.unpack key))).
    + exists true. reflexivity.
    + exists false. reflexivity.
Defined.

(** Nothing asked of a registry without entries. *)
Lemma ReloadConfig_empty_witness :
  base.ReloadConfig (demo.cfg_of []) demo.st0 = (true, demo.st0).
Proof.
  apply (ReloadConfig_empty (Env := demo.env) (demo.cfg_of []) demo.st0).
  - reflexivity.
  - reflexivity.
Defined.

(** An empty cfg against the registry of AS1 and AS2. *)
Lemma ReloadConfig_empty_cfg_clears_witness :
  base.am (base.ReloadConfig (demo.cfg_of []) demo.st2).2 = ∅ ∧
  (base.ReloadConfig (demo.cfg_of []) demo.st2).1 =
  (base.delOldIAs (demo.cfg_of []) demo.st2).1.
Proof.
  apply (ReloadConfig_empty_cfg_clears (Env := demo.env) (demo.cfg_of [])
           demo.st2).
  - reflexivity.
  - intros key _. apply pack_unpack.
Defined.

(** AS1 and AS2 on the empty registry, twice. *)
Lemma ReloadConfig_twice_witness :
  let cfg := demo.cfg_of [(demo.AS1, true); (demo.AS2, true)] in
  let st' := (base.ReloadConfig cfg demo.st0).2 in
  base.am (base.ReloadConfig cfg st').2 = base.am st' ∧
  base.trace (base.ReloadConfig cfg st').2 =
    base.trace st' ++
    flat_map (base.reconfigure_events (base.am st'))
             (map_to_list (config.ASes cfg)).
Proof.
  intros cfg.
  apply (ReloadConfig_twice (Env := demo.env) cfg demo.st0).
  - intros key _. apply pack_unpack.
  - apply unpack_pack_cfg. repeat constructor.
  - by vm_compute.
Defined.

(** The registry of AS1 and AS2 against a cfg of AS1: AS2 is cleaned up. *)
Lemma delOldIAs_cleans_up_witness :
  let cfg := demo.cfg_of [(demo.AS1, true)] in
  ∃ t, base.trace (base.delOldIAs cfg demo.st2).2 = base.trace demo.st2 ++ t ∧
       base.created t = [] ∧
       base.cleaned_up t =
         omap (λ key, base.am demo.st2 !! key)
              (base.stale_keys cfg (base.am demo.st2)) ∧
       length (base.cleaned_up t) =
         length (base.stale_keys cfg (base.am demo.st2)).
Proof.
  intros cfg. apply (delOldIAs_cleans_up (Env := demo.env) cfg demo.st2).
  intros key _. apply pack_unpack.
Defined.

End more_instances.
